(** * tdsplotslit: the rotated slit quadrangle and the plotting driver

    Shallow embedding of [bin/tdsplotslit.py].  numpy's float64 values are
    read as real numbers (exact arithmetic), so that the trigonometric and
    algebraic identities of the quadrangle builder can be stated; integers
    ([resolution], array lengths) are [Z] and [nat]; Python exceptions are
    the left summand of a small error monad. *)

From Stdlib Require Import Reals Lra Lia ZArith String List Psatz.
Import ListNotations.
Local Open Scope R_scope.

(** ** Exceptions and the error monad *)

Inductive exn : Type :=
| ValueError   (* numpy: negative sample or repeat count *)
| IndexError.  (* numpy: index out of bounds on an empty array *)

Definition result (A : Type) : Type := (exn + A)%type.

Definition ret {A : Type} (a : A) : result A := inr a.

Definition raise {A : Type} (e : exn) : result A := inl e.

Definition bind {A B : Type} (m : result A) (k : A -> result B) : result B :=
  match m with
  | inl e => inl e
  | inr a => k a
  end.

Notation "x <- m ;; k" := (bind m (fun x => k))
  (at level 61, m at next level, right associativity).

Definition raises {A : Type} (r : result A) : Prop := exists e, r = inl e.

(** ** astropy.units, angular part *)

Module Units.

Inductive Unit : Type := deg | arcmin | arcsec | rad | hourangle.

Definition unit_eqb (a b : Unit) : bool :=
  match a, b with
  | deg, deg | arcmin, arcmin | arcsec, arcsec
  | rad, rad | hourangle, hourangle => true
  | _, _ => false
  end.

(** Size of one unit in radians (astropy: deg = pi/180 rad,
    arcmin = deg/60, arcsec = deg/3600, hourangle = 15 deg). *)
Definition scale (a : Unit) : R :=
  match a with
  | rad => 1
  | deg => PI / 180
  | arcmin => PI / 180 / 60
  | arcsec => PI / 180 / 3600
  | hourangle => 15 * (PI / 180)
  end.

(** [value * unit]: a scalar [Quantity] (also an [Angle]). *)
Record Quantity : Type := mkQ { value : R; unit : Unit }.

(** [Unit.to(other, x)]: the value is untouched between equal units. *)
Definition convert (from to : Unit) (x : R) : R :=
  if unit_eqb from to then x else x * (scale from / scale to).

(** [q.to_value(u)] *)
Definition to_value (q : Quantity) (u : Unit) : R :=
  convert (unit q) u (value q).

(** [a += b], [a + b]: the right operand is brought to the unit of the
    left one, which the sum keeps. *)
Definition qadd (a b : Quantity) : Quantity :=
  mkQ (value a + to_value b (unit a)) (unit a).

(** The [anchor] argument: a tuple (or list) of two quantities, or one
    two-element quantity array. *)
Inductive Anchor : Type :=
| AnchorPair (lon lat : Quantity)
| AnchorArray (lon lat : R) (u : Unit).

(** [u.Quantity(anchor).to_value(vertex_unit)]: a sequence of quantities is
    first brought to the unit of its first element. *)
Definition anchor_to_value (a : Anchor) (vertex_unit : Unit) : R * R :=
  match a with
  | AnchorPair q0 q1 =>
      let u0 := unit q0 in
      (convert u0 vertex_unit (to_value q0 u0),
       convert u0 vertex_unit (to_value q1 u0))
  | AnchorArray x y u0 =>
      (convert u0 vertex_unit x, convert u0 vertex_unit y)
  end.

End Units.
Import Units.

(** ** The numpy operations the builder uses *)

Module Numpy.

(** A 2-D array, row-major. *)
Definition matrix : Type := list (list R).

(** [np.arange(0, num)] as floats. *)
Definition arange (num : Z) : list R :=
  map (fun i => IZR (Z.of_nat i)) (seq 0 (Z.to_nat num)).

(** [y[-1] = v] on a non-empty array. *)
Definition set_last (y : list R) (v : R) : list R := removelast y ++ [v].

(** [np.linspace(start, stop, num)] with [endpoint=True]. *)
Definition linspace (start stop : R) (num : Z) : result (list R) :=
  if (num <? 0)%Z then raise ValueError
  else
    let div := (num - 1)%Z in
    let delta := stop - start in
    let y := arange num in
    let y :=
      if (0 <? div)%Z then
        let step := delta / IZR div in
        if Req_dec_T step 0
        then map (fun v => v * delta) (map (fun v => v / IZR div) y)
        else map (fun v => v * step) y
      else map (fun v => v * delta) y in
    let y := map (fun v => v + start) y in
    ret (if (1 <? num)%Z then set_last y stop else y).

(** [np.repeat(x, n)] *)
Definition np_repeat (x : R) (n : Z) : result (list R) :=
  if (n <? 0)%Z then raise ValueError else ret (repeat x (Z.to_nat n)).

(** [a[0]] and [a[-1]] *)
Definition first_item (a : list R) : result R :=
  match a with
  | [] => raise IndexError
  | x :: _ => ret x
  end.

Definition last_item (a : list R) : result R :=
  match a with
  | [] => raise IndexError
  | _ :: _ => ret (last a 0)
  end.

(** [a[:-1]], [a[1:]], [np.flip(a)], [np.concatenate(...)] *)
Definition but_last (a : list R) : list R := removelast a.
Definition from_1 (a : list R) : list R := tl a.
Definition flip (a : list R) : list R := rev a.
Definition concatenate (parts : list (list R)) : list R := concat parts.

Definition ncols (m : matrix) : nat :=
  match m with
  | [] => 0%nat
  | r :: _ => length r
  end.

Definition col (j : nat) (m : matrix) : list R :=
  map (fun r => nth j r 0) m.

(** [m.T] *)
Definition transpose (m : matrix) : matrix :=
  map (fun j => col j m) (seq 0 (ncols m)).

Fixpoint dot (u v : list R) : R :=
  match u, v with
  | a :: u', b :: v' => a * b + dot u' v'
  | _, _ => 0
  end.

(** [a @ b] *)
Definition matmul (a b : matrix) : matrix :=
  map (fun row => map (fun j => dot row (col j b)) (seq 0 (ncols b))) a.

(** [a - c] and [a + c] where [c] has one column, broadcast along the
    rows of [a]. *)
Definition broadcast (op : R -> R -> R) (a c : matrix) : matrix :=
  map (fun rc => map (fun x => op x (nth 0 (snd rc) 0)) (fst rc))
      (combine a c).

Definition bsub : matrix -> matrix -> matrix := broadcast Rminus.
Definition badd : matrix -> matrix -> matrix := broadcast Rplus.

End Numpy.
Import Numpy.

(** ** mySlit.__init__ *)

(** Keyword arguments handed on to [matplotlib.patches.Polygon]. *)
Record PatchStyle : Type := mkStyle {
  edgecolor : string;
  facecolor : string;
  lw : option string;
  transform : string
}.

(** The polygon patch: [xy] is the vertex array given to matplotlib's
    [Polygon.__init__], one row per vertex; the constructor stores the array
    and the keyword arguments. *)
Record Polygon : Type := mkPolygon { xy : matrix; style : PatchStyle }.

Definition default_width : Quantity := mkQ 1.5 arcsec.
Definition default_height : Quantity := mkQ 3 arcmin.
Definition default_theta : Quantity := mkQ 0 deg.
Definition default_resolution : Z := 100%Z.
Definition default_vertex_unit : Unit := deg.

(** Lines 58-77: corner coordinates, the two progressions, and the traced
    path as the 2 x N array [[lon, lat]]. *)
Definition quadrangle_trace (lon_c lat_c width height : R) (resolution : Z)
  : result matrix :=
  let longitude := lon_c - width * 0.5 in
  let latitude := lat_c - height * 0.5 in
  ls <- linspace 0 width (resolution + 1) ;;
  let lon_seq := map (fun v => longitude + v) ls in
  ls' <- linspace 0 height (resolution + 1) ;;
  let lat_seq := map (fun v => latitude + v) ls' in
  lon_last <- last_item lon_seq ;;
  lon_right <- np_repeat lon_last resolution ;;
  lon_first <- first_item lon_seq ;;
  lon_left <- np_repeat lon_first resolution ;;
  let lon := concatenate [but_last lon_seq; lon_right;
                          flip (from_1 lon_seq); lon_left] in
  lat_first <- first_item lat_seq ;;
  lat_bottom <- np_repeat lat_first resolution ;;
  lat_last <- last_item lat_seq ;;
  lat_top <- np_repeat lat_last resolution ;;
  let lat := concatenate [lat_bottom; but_last lat_seq;
                          lat_top; flip (from_1 lat_seq)] in
  ret [lon; lat].

(** Lines 79-81. *)
Definition rot_matrix (theta : R) : matrix :=
  [[cos theta; sin theta]; [- sin theta; cos theta]].

(** Lines 83-87, for any 2 x 2 matrix [m]. *)
Definition rotate_with (m : matrix) (center vertices : matrix) : matrix :=
  let vertices := bsub vertices (transpose center) in
  let vertices := matmul m vertices in
  let vertices := badd vertices (transpose center) in
  transpose vertices.

(** Lines 79-87: the rotation step of the builder. *)
Definition rotate_quadrangle (theta : R) (center vertices : matrix) : matrix :=
  rotate_with (rot_matrix theta) center vertices.

(** Lines 49-50: the centre in [vertex_unit], as the 1 x 2 array. *)
Definition center_of (anchor : Anchor) (vertex_unit : Unit) : matrix :=
  let '(lon_c, lat_c) := anchor_to_value anchor vertex_unit in
  [[lon_c; lat_c]].

Definition mySlit (anchor : Anchor) (width height theta : Quantity)
  (resolution : Z) (vertex_unit : Unit) (kwargs : PatchStyle)
  : result Polygon :=
  let '(lon_c, lat_c) := anchor_to_value anchor vertex_unit in
  let center := [[lon_c; lat_c]] in
  let theta := to_value theta rad in
  let width := to_value width vertex_unit in
  let height := to_value height vertex_unit in
  vertices <- quadrangle_trace lon_c lat_c width height resolution ;;
  let vertices := rotate_quadrangle theta center vertices in
  ret (mkPolygon vertices kwargs).

(** ** main *)

(** The spectrum header as the driver reads it.  [Angle(hdr['RA'] + ' hours')]
    and [Angle(hdr['DEC'] + ' degrees')] are astropy's parsers: [RA] is the
    parsed right ascension in hours and [DEC] the parsed declination in
    degrees. *)
Record Header : Type := mkHeader {
  RA : R;
  DEC : R;
  POSANG : R;
  OBJECT : string
}.

(** The parsed command line. *)
Record Args : Type := mkArgs {
  image : string;
  spectrum : string;
  ra_corr : R;
  dec_corr : R
}.

(** The WCS axes the driver draws on, and what it prints. *)
Record Axes : Type := mkAxes {
  title : string;
  shown : list (matrix * string);
  patches : list Polygon
}.

Definition empty_axes : Axes := mkAxes EmptyString [] [].

Definition set_title (ax : Axes) (t : string) : Axes :=
  mkAxes t (shown ax) (patches ax).

Definition imshow (ax : Axes) (data : matrix) (cmap : string) : Axes :=
  mkAxes (title ax) (shown ax ++ [(data, cmap)]) (patches ax).

Definition add_patch (ax : Axes) (p : Polygon) : Axes :=
  mkAxes (title ax) (shown ax) (patches ax ++ [p]).

(** Lines 113-115: the slit centre with the two corrections applied. *)
Definition radec_slit (pargs : Args) (hdr : Header) : Quantity * Quantity :=
  let radec := (mkQ (RA hdr) hourangle, mkQ (DEC hdr) deg) in
  let radec := (fst radec, qadd (snd radec) (mkQ (ra_corr pargs) arcsec)) in
  let radec := (qadd (fst radec) (mkQ (dec_corr pargs) arcsec), snd radec) in
  radec.

Definition slit_style : PatchStyle :=
  mkStyle "tab:olive" "none" (Some "0.5"%string) "icrs".

Definition marker_style : PatchStyle :=
  mkStyle "red" "none" None "icrs".

(** [main]: [image_data] is the first HDU of the image file and [hdr] the
    header of the spectrum file; the result is the exit status, the lines
    printed and the axes shown. *)
Definition main (pargs : Args) (image_data : matrix) (hdr : Header)
  : result (Z * list string * Axes) :=
  let stdout := [image pargs] in
  let radec := radec_slit pargs hdr in
  let anchor := AnchorPair (fst radec) (snd radec) in
  let ax := empty_axes in
  let ax := set_title ax (OBJECT hdr) in
  let ax := imshow ax image_data "bone" in
  let PA := POSANG hdr in
  s <- mySlit anchor (mkQ 1.0 arcsec) (mkQ 3.0 arcmin) (mkQ PA deg)
         default_resolution default_vertex_unit slit_style ;;
  let ax := add_patch ax s in
  c <- mySlit anchor (mkQ 0.1 arcsec) (mkQ 0.1 arcmin) (mkQ (PA + 90) deg)
         default_resolution default_vertex_unit marker_style ;;
  let ax := add_patch ax c in
  ret (0%Z, stdout, ax).

(** ** Reference definitions used to state the properties *)

(** The [i]-th of [res] equal steps from [a] to [a + w]. *)
Definition grid (a w : R) (res : Z) (i : nat) : R :=
  a + IZR (Z.of_nat i) * w / IZR res.

(** The column vector [m . (v - c) + c] for a 2 x 2 matrix [m] given by its
    four entries, written as the row [x'; y']. *)
Definition affine_image (m00 m01 m10 m11 : R) (c v : R * R) : list R :=
  [m00 * (fst v - fst c) + m01 * (snd v - snd c) + fst c;
   m10 * (fst v - fst c) + m11 * (snd v - snd c) + snd c].

(** [R(theta) . (v - c) + c] with
    [R(theta) = [[cos theta, sin theta], [- sin theta, cos theta]]]. *)
Definition rotated_about (theta : R) (c v : R * R) : list R :=
  affine_image (cos theta) (sin theta) (- sin theta) (cos theta) c v.

(** The usual counter-clockwise rotation matrix. *)
Definition ccw_matrix (t : R) : matrix :=
  [[cos t; - sin t]; [sin t; cos t]].

(** Vertex [i] of a 2 x N array [[lon, lat]]. *)
Definition vertex_of (vertices : matrix) (i : nat) : R * R :=
  (nth i (nth 0 vertices []) 0, nth i (nth 1 vertices []) 0).

Fixpoint Rsum (l : list R) : R :=
  match l with
  | [] => 0
  | x :: l' => x + Rsum l'
  end.

(** Arithmetic mean of the rows of an N x 2 vertex array. *)
Definition centroid (path : matrix) : R * R :=
  (Rsum (col 0 path) / INR (length path),
   Rsum (col 1 path) / INR (length path)).

(** Validity of the builder's arguments as the specification has it. *)
Definition valid_spec (width height : Quantity) (resolution : Z)
  (vertex_unit : Unit) : Prop :=
  0 < to_value width vertex_unit /\
  0 < to_value height vertex_unit /\
  (1 <= resolution)%Z.

(** Closed forms of the arrays [lon] and [lat] of lines 67-74 for
    [1 <= resolution]; [quadrangle_trace_closed] proves that the builder
    computes them. *)
Definition trace_lon (L w : R) (res : Z) : list R :=
  let n := Z.to_nat res in
  map (grid L w res) (seq 0 n) ++ repeat (L + w) n
  ++ rev (map (grid L w res) (seq 1 n)) ++ repeat L n.

Definition trace_lat (B h : R) (res : Z) : list R :=
  let n := Z.to_nat res in
  repeat B n ++ map (grid B h res) (seq 0 n)
  ++ repeat (B + h) n ++ rev (map (grid B h res) (seq 1 n)).

(** Lines 49-77 of a call of the builder: the path before the rotation
    step, as the 2 x N array [[lon, lat]]. *)
Definition unrotated_path (anchor : Anchor) (width height : Quantity)
  (resolution : Z) (vertex_unit : Unit) : result matrix :=
  quadrangle_trace (fst (anchor_to_value anchor vertex_unit))
    (snd (anchor_to_value anchor vertex_unit))
    (to_value width vertex_unit) (to_value height vertex_unit) resolution.

(** Closed form of the rotated N x 2 array: row [i] is the image of vertex
    [i]; [mySlit_closed] proves that the builder computes it. *)
Definition rotated_rows (theta : R) (c : R * R) (lon lat : list R) : matrix :=
  map (fun i => rotated_about theta c (nth i lon 0, nth i lat 0))
      (seq 0 (length lon)).

(** The rectangle boundary as the specification describes it: edge [0] is
    the bottom edge from the bottom-left corner to the right, edge [1] the
    right edge upwards, edge [2] the top edge to the left, edge [3] the left
    edge downwards; [k] counts the [resolution] steps of an edge, so that the
    far corner of an edge belongs to the next edge. *)
Definition boundary_vertex (lon lat w h : R) (res : Z) (e k : nat) : R * R :=
  let t := IZR (Z.of_nat k) / IZR res in
  match e with
  | 0%nat => (lon - w / 2 + t * w, lat - h / 2)
  | 1%nat => (lon + w / 2, lat - h / 2 + t * h)
  | 2%nat => (lon + w / 2 - t * w, lat + h / 2)
  | _ => (lon - w / 2, lat + h / 2 - t * h)
  end.

(** [- theta] *)
Definition qneg (q : Quantity) : Quantity := mkQ (- value q) (unit q).

(** The four corners of the unrotated rectangle, in path order. *)
Definition corners (lon lat w h : R) : list (R * R) :=
  [(lon - w / 2, lat - h / 2); (lon + w / 2, lat - h / 2);
   (lon + w / 2, lat + h / 2); (lon - w / 2, lat + h / 2)].

(** The anchor both constructor calls of [main] receive. *)
Definition main_anchor (pargs : Args) (hdr : Header) : Anchor :=
  AnchorPair (fst (radec_slit pargs hdr)) (snd (radec_slit pargs hdr)).

(** ** Reference definitions for the geometry of the polygon *)

(** A row [x; y] of an N x 2 vertex array as a point. *)
Definition row_pair (r : list R) : R * R := (nth 0 r 0, nth 1 r 0).

(** Squared Euclidean distance and scalar product in the (lon, lat) plane. *)
Definition dist2 (p q : R * R) : R :=
  (fst p - fst q) * (fst p - fst q) + (snd p - snd q) * (snd p - snd q).

Definition dot2 (p q : R * R) : R := fst p * fst q + snd p * snd q.

Definition vsub (p q : R * R) : R * R := (fst p - fst q, snd p - snd q).

(** A vertex array moved by [d], stretched by [k], and a row mirrored
    through the point [c]. *)
Definition translate (d : R * R) (path : matrix) : matrix :=
  map (fun r => [nth 0 r 0 + fst d; nth 1 r 0 + snd d]) path.

Definition scale_rows (k : R) (path : matrix) : matrix :=
  map (fun r => [k * nth 0 r 0; k * nth 1 r 0]) path.

Definition reflect_through (c : R * R) (r : list R) : list R :=
  [2 * fst c - nth 0 r 0; 2 * snd c - nth 1 r 0].

(** The command line with both corrections left at their default 0.0. *)
Definition no_corrections (pargs : Args) : Args :=
  mkArgs (image pargs) (spectrum pargs) 0 0.

(** ** Lemmas on lists *)

(** Lengths of lists built from [map], [seq], [repeat], [rev] and [++]. *)
Ltac list_length :=
  rewrite ?length_app, ?length_rev, ?length_map, ?length_seq, ?repeat_length;
  try lia.

Lemma nth_map_seq {A : Type} (f : nat -> A) (d : A) (n i : nat) :
  (i < n)%nat -> nth i (map f (seq 0 n)) d = f i.
Proof.
  intros Hi.
  rewrite (nth_indep _ d (f 0%nat)) by (rewrite length_map, length_seq; exact Hi).
  rewrite (map_nth f (seq 0 n) 0%nat i), seq_nth by exact Hi.
  reflexivity.
Qed.

Lemma nth_map_in {A B : Type} (f : A -> B) (l : list A) (d : B) (d' : A)
  (i : nat) :
  (i < length l)%nat -> nth i (map f l) d = f (nth i l d').
Proof.
  intros Hi.
  rewrite (nth_indep _ d (f d')) by (rewrite length_map; exact Hi).
  apply map_nth.
Qed.

Lemma map_seq_shift {A : Type} (f : nat -> A) (s n : nat) :
  map f (seq s n) = map (fun i => f (s + i)%nat) (seq 0 n).
Proof.
  revert s; induction n as [|n IH]; intros s; simpl.
  - reflexivity.
  - rewrite Nat.add_0_r. f_equal.
    rewrite (IH (S s)), <- seq_shift, map_map.
    apply map_ext; intros i. f_equal; lia.
Qed.

Lemma Rsum_app (l1 l2 : list R) : Rsum (l1 ++ l2) = Rsum l1 + Rsum l2.
Proof. induction l1 as [|x l1 IH]; simpl; [|rewrite IH]; lra. Qed.

Lemma Rsum_rev (l : list R) : Rsum (rev l) = Rsum l.
Proof.
  induction l as [|x l IH]; simpl; [reflexivity|].
  rewrite Rsum_app, IH; simpl; lra.
Qed.

Lemma Rsum_repeat (x : R) (n : nat) : Rsum (repeat x n) = INR n * x.
Proof.
  induction n as [|n IH]; [simpl; lra|].
  rewrite S_INR; simpl; rewrite IH; lra.
Qed.

(** Sum of an arithmetic progression indexed from [s]. *)
Lemma Rsum_progression (a b : R) (s n : nat) :
  Rsum (map (fun i => a + IZR (Z.of_nat i) * b) (seq s n))
  = INR n * a + b * (INR n * INR s + INR n * (INR n - 1) / 2).
Proof.
  revert s; induction n as [|n IH]; intros s.
  - simpl; lra.
  - cbn [seq map Rsum]. rewrite IH, !S_INR, <- INR_IZR_INZ. lra.
Qed.

(** ** The progressions and the traced path in closed form *)

Lemma IZR_to_nat (res : Z) : (0 <= res)%Z -> IZR (Z.of_nat (Z.to_nat res)) = IZR res.
Proof. intros H; rewrite Z2Nat.id by exact H; reflexivity. Qed.

Lemma grid_first (a w : R) (res : Z) : grid a w res 0 = a.
Proof. unfold grid; simpl; unfold Rdiv; lra. Qed.

Lemma grid_last (a w : R) (res : Z) :
  (1 <= res)%Z -> grid a w res (Z.to_nat res) = a + w.
Proof.
  intros H. unfold grid. rewrite IZR_to_nat by lia.
  assert (1 <= IZR res) by (apply IZR_le; exact H).
  field; lra.
Qed.

Lemma grid_shift (a w : R) (res : Z) (i : nat) :
  grid a w res i = a + grid 0 w res i.
Proof. unfold grid; lra. Qed.

Lemma linspace_grid (w : R) (res : Z) :
  (1 <= res)%Z ->
  linspace 0 w (res + 1)
  = inr (map (grid 0 w res) (seq 0 (Z.to_nat res)) ++ [w]).
Proof.
  intros H. unfold linspace, arange.
  assert (Hr : 1 <= IZR res) by (apply IZR_le; exact H).
  destruct (Z.ltb_spec (res + 1) 0) as [?|_]; [lia|].
  replace (res + 1 - 1)%Z with res by lia.
  destruct (Z.ltb_spec 0 res) as [_|?]; [|lia].
  destruct (Z.ltb_spec 1 (res + 1)) as [_|?]; [|lia].
  replace (Z.to_nat (res + 1)) with (S (Z.to_nat res)) by lia.
  unfold ret, set_last. f_equal.
  rewrite seq_S, Nat.add_0_l.
  destruct (Req_dec_T ((w - 0) / IZR res) 0) as [_|_];
    rewrite !map_app; cbn [map]; rewrite removelast_last, !map_map;
    (f_equal; apply map_ext; intros i; unfold grid; field; lra).
Qed.

Lemma np_repeat_nonneg (x : R) (n : Z) :
  (0 <= n)%Z -> np_repeat x n = inr (repeat x (Z.to_nat n)).
Proof.
  intros H. unfold np_repeat.
  destruct (Z.ltb_spec n 0); [lia|reflexivity].
Qed.

Lemma last_item_snoc (l : list R) (x : R) : last_item (l ++ [x]) = inr x.
Proof.
  unfold last_item. rewrite last_last.
  destruct l; reflexivity.
Qed.

Lemma progression_tail (a w : R) (res : Z) :
  (1 <= res)%Z ->
  tl (map (grid a w res) (seq 0 (Z.to_nat res)) ++ [a + w])
  = map (grid a w res) (seq 1 (Z.to_nat res)).
Proof.
  intros H.
  rewrite <- (grid_last a w res H).
  change [grid a w res (Z.to_nat res)]
    with (map (grid a w res) [(0 + Z.to_nat res)%nat]).
  rewrite <- map_app, <- seq_S. reflexivity.
Qed.

Lemma progression_head (a w : R) (res : Z) :
  (1 <= res)%Z ->
  first_item (map (grid a w res) (seq 0 (Z.to_nat res)) ++ [a + w]) = inr a.
Proof.
  intros H. destruct (Z.to_nat res) as [|n] eqn:E; [lia|].
  simpl. rewrite grid_first. reflexivity.
Qed.

Lemma quadrangle_trace_closed (lon_c lat_c w h : R) (res : Z) :
  (1 <= res)%Z ->
  quadrangle_trace lon_c lat_c w h res
  = inr [trace_lon (lon_c - w * 0.5) w res;
         trace_lat (lat_c - h * 0.5) h res].
Proof.
  intros H. unfold quadrangle_trace.
  rewrite !linspace_grid by exact H.
  cbn [bind].
  set (L := lon_c - w * 0.5). set (B := lat_c - h * 0.5).
  assert (EL : map (fun v => L + v)
                 (map (grid 0 w res) (seq 0 (Z.to_nat res)) ++ [w])
               = map (grid L w res) (seq 0 (Z.to_nat res)) ++ [L + w]).
  { rewrite map_app, map_map. f_equal.
    apply map_ext; intros i; symmetry; apply grid_shift. }
  assert (EB : map (fun v => B + v)
                 (map (grid 0 h res) (seq 0 (Z.to_nat res)) ++ [h])
               = map (grid B h res) (seq 0 (Z.to_nat res)) ++ [B + h]).
  { rewrite map_app, map_map. f_equal.
    apply map_ext; intros i; symmetry; apply grid_shift. }
  rewrite EL, EB.
  rewrite !last_item_snoc, !progression_head by exact H.
  cbn [bind].
  rewrite !np_repeat_nonneg by lia.
  cbn [bind]. unfold ret, but_last, from_1, flip, concatenate.
  rewrite !removelast_last, !progression_tail by exact H.
  unfold trace_lon, trace_lat. cbn [concat]. rewrite !app_nil_r.
  reflexivity.
Qed.

(** ** The rotation step, vertex by vertex *)

Lemma rotate_with_rows (m00 m01 m10 m11 cx cy : R) (lon lat : list R) :
  length lat = length lon ->
  rotate_with [[m00; m01]; [m10; m11]] [[cx; cy]] [lon; lat]
  = map (fun i => affine_image m00 m01 m10 m11 (cx, cy)
                    (nth i lon 0, nth i lat 0))
        (seq 0 (length lon)).
Proof.
  intros Hlen. unfold rotate_with, bsub, badd, broadcast, matmul, transpose.
  cbn [ncols length seq map col combine fst snd nth].
  rewrite !length_map, !length_seq.
  apply map_ext_in. intros i Hi. apply in_seq in Hi.
  unfold affine_image. cbn [fst snd].
  rewrite !(nth_map_in (fun x => x + _) _ 0 0)
    by list_length.
  rewrite !nth_map_seq by lia.
  cbn [dot].
  rewrite !(nth_map_in (fun x => x - _) _ 0 0) by lia.
  f_equal; [lra | f_equal; lra].
Qed.

(** ** The builder in closed form *)

Lemma trace_lon_length (L w : R) (res : Z) :
  length (trace_lon L w res) = (4 * Z.to_nat res)%nat.
Proof. unfold trace_lon. list_length. Qed.

Lemma trace_lat_length (B h : R) (res : Z) :
  length (trace_lat B h res) = (4 * Z.to_nat res)%nat.
Proof. unfold trace_lat. list_length. Qed.

Lemma mySlit_closed (anchor : Anchor) (width height theta : Quantity)
  (res : Z) (u : Unit) (kwargs : PatchStyle) :
  (1 <= res)%Z ->
  let c := anchor_to_value anchor u in
  let w := to_value width u in
  let h := to_value height u in
  mySlit anchor width height theta res u kwargs
  = inr (mkPolygon
           (rotated_rows (to_value theta rad) c
              (trace_lon (fst c - w * 0.5) w res)
              (trace_lat (snd c - h * 0.5) h res))
           kwargs).
Proof.
  intros H c w h. unfold mySlit. subst c.
  destruct (anchor_to_value anchor u) as [cx cy].
  rewrite quadrangle_trace_closed by exact H.
  cbn [bind fst snd]. unfold ret, rotate_quadrangle, rot_matrix.
  rewrite rotate_with_rows
    by (rewrite trace_lon_length, trace_lat_length; reflexivity).
  reflexivity.
Qed.

Lemma unrotated_path_closed (anchor : Anchor) (width height : Quantity)
  (res : Z) (u : Unit) :
  (1 <= res)%Z ->
  let c := anchor_to_value anchor u in
  let w := to_value width u in
  let h := to_value height u in
  unrotated_path anchor width height res u
  = inr [trace_lon (fst c - w * 0.5) w res;
         trace_lat (snd c - h * 0.5) h res].
Proof.
  intros H c w h. unfold unrotated_path.
  apply quadrangle_trace_closed; exact H.
Qed.

Lemma rotated_rows_length (theta : R) (c : R * R) (lon lat : list R) :
  length (rotated_rows theta c lon lat) = length lon.
Proof. unfold rotated_rows; rewrite length_map, length_seq; reflexivity. Qed.

Lemma rotated_rows_nth (theta : R) (c : R * R) (lon lat : list R) (i : nat) :
  (i < length lon)%nat ->
  nth i (rotated_rows theta c lon lat) []
  = rotated_about theta c (nth i lon 0, nth i lat 0).
Proof.
  intros Hi. unfold rotated_rows.
  exact (nth_map_seq
           (fun j => rotated_about theta c (nth j lon 0, nth j lat 0))
           [] (length lon) i Hi).
Qed.

(** ** C1 *)

(** C1: for every valid specification, each vertex of the polygon is the
    vertex of the unrotated path at the same position, moved by
    [v' = R(theta) . (v - center) + center] with
    [R(theta) = [[cos theta, sin theta], [- sin theta, cos theta]]] and
    [theta] in radians. *)
Theorem C1_vertices_are_rotated_trace
  (anchor : Anchor) (width height theta : Quantity) (resolution : Z)
  (vertex_unit : Unit) (kwargs : PatchStyle) :
  valid_spec width height resolution vertex_unit ->
  exists vertices p,
    unrotated_path anchor width height resolution vertex_unit = inr vertices /\
    mySlit anchor width height theta resolution vertex_unit kwargs = inr p /\
    length (xy p) = length (nth 0 vertices []) /\
    length (xy p) = length (nth 1 vertices []) /\
    forall i, (i < length (xy p))%nat ->
      nth i (xy p) []
      = rotated_about (to_value theta rad)
          (anchor_to_value anchor vertex_unit) (vertex_of vertices i).
Proof.
  intros (_ & _ & Hres).
  eexists; eexists.
  split; [apply unrotated_path_closed; exact Hres|].
  split; [apply mySlit_closed; exact Hres|].
  cbn [xy nth]. rewrite rotated_rows_length, trace_lon_length, trace_lat_length.
  split; [reflexivity|]. split; [reflexivity|].
  intros i Hi. apply rotated_rows_nth.
  rewrite trace_lon_length; exact Hi.
Qed.

Lemma C1_vertices_are_rotated_trace_witness :
  valid_spec (mkQ 2 deg) (mkQ 4 deg) 3 deg /\
  exists vertices p,
    unrotated_path (AnchorArray 10 20 deg) (mkQ 2 deg) (mkQ 4 deg) 3 deg
      = inr vertices /\
    mySlit (AnchorArray 10 20 deg) (mkQ 2 deg) (mkQ 4 deg) (mkQ 30 deg) 3 deg
      marker_style = inr p /\
    length (xy p) = length (nth 0 vertices []) /\
    length (xy p) = length (nth 1 vertices []) /\
    forall i, (i < length (xy p))%nat ->
      nth i (xy p) []
      = rotated_about (to_value (mkQ 30 deg) rad)
          (anchor_to_value (AnchorArray 10 20 deg) deg) (vertex_of vertices i).
Proof.
  assert (V : valid_spec (mkQ 2 deg) (mkQ 4 deg) 3 deg).
  { unfold valid_spec, to_value, convert; simpl. repeat split; try lra; lia. }
  split; [exact V|].
  exact (C1_vertices_are_rotated_trace (AnchorArray 10 20 deg) (mkQ 2 deg)
           (mkQ 4 deg) (mkQ 30 deg) 3 deg marker_style V).
Defined.

(** ** The four edges of the traced path *)

Lemma rev_progression_nth (a w : R) (res : Z) (n k : nat) :
  (k < n)%nat ->
  nth k (rev (map (grid a w res) (seq 1 n))) 0 = grid a w res (n - k).
Proof.
  intros Hk.
  rewrite rev_nth by list_length.
  rewrite length_map, length_seq, map_seq_shift.
  rewrite nth_map_seq by lia.
  f_equal; lia.
Qed.

Section Edges.

Variables (L B w h : R) (res : Z).
Local Abbreviation n := (Z.to_nat res).

Lemma trace_lon_bottom (k : nat) :
  (k < n)%nat -> nth k (trace_lon L w res) 0 = grid L w res k.
Proof.
  intros Hk. unfold trace_lon.
  rewrite app_nth1 by list_length.
  apply nth_map_seq; exact Hk.
Qed.

Lemma trace_lon_right (k : nat) :
  (k < n)%nat -> nth (n + k) (trace_lon L w res) 0 = L + w.
Proof.
  intros Hk. unfold trace_lon.
  rewrite app_nth2 by list_length.
  rewrite length_map, length_seq.
  rewrite app_nth1 by list_length.
  apply nth_repeat_lt; lia.
Qed.

Lemma trace_lon_top (k : nat) :
  (k < n)%nat -> nth (2 * n + k) (trace_lon L w res) 0 = grid L w res (n - k).
Proof.
  intros Hk. unfold trace_lon.
  rewrite app_nth2 by list_length.
  rewrite length_map, length_seq.
  rewrite app_nth2 by list_length.
  rewrite repeat_length.
  rewrite app_nth1 by list_length.
  replace (2 * n + k - n - n)%nat with k by lia.
  apply rev_progression_nth; exact Hk.
Qed.

Lemma trace_lon_left (k : nat) :
  (k < n)%nat -> nth (3 * n + k) (trace_lon L w res) 0 = L.
Proof.
  intros Hk. unfold trace_lon.
  rewrite app_nth2 by list_length.
  rewrite length_map, length_seq.
  rewrite app_nth2 by list_length.
  rewrite repeat_length.
  rewrite app_nth2 by list_length.
  apply nth_repeat_lt.
  rewrite length_rev, length_map, length_seq; lia.
Qed.

Lemma trace_lat_bottom (k : nat) :
  (k < n)%nat -> nth k (trace_lat B h res) 0 = B.
Proof.
  intros Hk. unfold trace_lat.
  rewrite app_nth1 by list_length.
  apply nth_repeat_lt; exact Hk.
Qed.

Lemma trace_lat_right (k : nat) :
  (k < n)%nat -> nth (n + k) (trace_lat B h res) 0 = grid B h res k.
Proof.
  intros Hk. unfold trace_lat.
  rewrite app_nth2 by list_length.
  rewrite repeat_length.
  rewrite app_nth1 by list_length.
  replace (n + k - n)%nat with k by lia.
  apply nth_map_seq; exact Hk.
Qed.

Lemma trace_lat_top (k : nat) :
  (k < n)%nat -> nth (2 * n + k) (trace_lat B h res) 0 = B + h.
Proof.
  intros Hk. unfold trace_lat.
  rewrite app_nth2 by list_length.
  rewrite repeat_length.
  rewrite app_nth2 by list_length.
  rewrite length_map, length_seq.
  rewrite app_nth1 by list_length.
  apply nth_repeat_lt; lia.
Qed.

Lemma trace_lat_left (k : nat) :
  (k < n)%nat -> nth (3 * n + k) (trace_lat B h res) 0 = grid B h res (n - k).
Proof.
  intros Hk. unfold trace_lat.
  rewrite app_nth2 by list_length.
  rewrite repeat_length.
  rewrite app_nth2 by list_length.
  rewrite length_map, length_seq.
  rewrite app_nth2 by list_length.
  rewrite repeat_length.
  replace (3 * n + k - n - n - n)%nat with k by lia.
  apply rev_progression_nth; exact Hk.
Qed.

End Edges.

Lemma grid_rev (a w : R) (res : Z) (k : nat) :
  (1 <= res)%Z -> (k <= Z.to_nat res)%nat ->
  grid a w res (Z.to_nat res - k)
  = a + w - IZR (Z.of_nat k) / IZR res * w.
Proof.
  intros H Hk. unfold grid.
  rewrite Nat2Z.inj_sub, minus_IZR, IZR_to_nat by lia.
  assert (1 <= IZR res) by (apply IZR_le; exact H).
  field; lra.
Qed.

Lemma decimal_half (x : R) : x * 0.5 = x / 2.
Proof. lra. Qed.

Lemma vertex_of_trace (lon lat w h : R) (res : Z) (e k : nat) :
  (1 <= res)%Z -> (e < 4)%nat -> (k < Z.to_nat res)%nat ->
  vertex_of [trace_lon (lon - w * 0.5) w res; trace_lat (lat - h * 0.5) h res]
    (e * Z.to_nat res + k)
  = boundary_vertex lon lat w h res e k.
Proof.
  intros H He Hk. unfold vertex_of. cbn [nth]. rewrite !decimal_half.
  assert (Hr : 1 <= IZR res) by (apply IZR_le; exact H).
  destruct e as [|[|[|[|e]]]]; [| | | |lia]; cbn [boundary_vertex].
  - rewrite Nat.mul_0_l, Nat.add_0_l.
    rewrite trace_lon_bottom, trace_lat_bottom by exact Hk.
    unfold grid. apply f_equal2; field; lra.
  - rewrite Nat.mul_1_l.
    rewrite trace_lon_right, trace_lat_right by exact Hk.
    unfold grid. apply f_equal2; field; lra.
  - rewrite trace_lon_top, trace_lat_top by exact Hk.
    rewrite grid_rev by lia. apply f_equal2; field; lra.
  - rewrite trace_lon_left, trace_lat_left by exact Hk.
    rewrite grid_rev by lia. apply f_equal2; field; lra.
Qed.

Lemma step_fraction (res : Z) (k : nat) :
  (1 <= res)%Z -> (k < Z.to_nat res)%nat ->
  0 <= IZR (Z.of_nat k) / IZR res < 1.
Proof.
  intros H Hk.
  assert (Hr : 0 < IZR res) by (apply IZR_lt; lia).
  assert (H0 : 0 <= IZR (Z.of_nat k)) by (apply IZR_le; lia).
  assert (H1 : IZR (Z.of_nat k) < IZR res) by (apply IZR_lt; lia).
  split.
  - apply Rmult_le_pos; [exact H0|]. apply Rlt_le, Rinv_0_lt_compat, Hr.
  - apply (Rmult_lt_reg_r (IZR res)); [exact Hr|].
    unfold Rdiv. rewrite Rmult_assoc, Rinv_l by lra. lra.
Qed.

Lemma step_fraction_inj (res : Z) (k k' : nat) :
  (1 <= res)%Z ->
  IZR (Z.of_nat k) / IZR res = IZR (Z.of_nat k') / IZR res -> k = k'.
Proof.
  intros H E.
  assert (Hr : 0 < IZR res) by (apply IZR_lt; lia).
  apply Nat2Z.inj, eq_IZR.
  apply (Rmult_eq_reg_r (/ IZR res)); [exact E|].
  apply Rinv_neq_0_compat; lra.
Qed.

Lemma scaled_eq (t t' w : R) : 0 < w -> t * w = t' * w -> t = t'.
Proof. intros Hw E. apply (Rmult_eq_reg_r w); [exact E|lra]. Qed.

(** Two positions on the boundary that carry the same point are the same
    position. *)
Lemma boundary_vertex_inj (lon lat w h : R) (res : Z) (e k e' k' : nat) :
  0 < w -> 0 < h -> (1 <= res)%Z ->
  (e < 4)%nat -> (k < Z.to_nat res)%nat ->
  (e' < 4)%nat -> (k' < Z.to_nat res)%nat ->
  boundary_vertex lon lat w h res e k = boundary_vertex lon lat w h res e' k' ->
  e = e' /\ k = k'.
Proof.
  intros Hw Hh H He Hk He' Hk' E.
  pose proof (step_fraction res k H Hk) as Ht.
  pose proof (step_fraction res k' H Hk') as Ht'.
  pose proof (step_fraction_inj res k k' H) as Hinj.
  unfold boundary_vertex in E.
  set (t := IZR (Z.of_nat k) / IZR res) in *.
  set (t' := IZR (Z.of_nat k') / IZR res) in *.
  destruct e as [|[|[|[|e]]]]; [| | | |lia];
    destruct e' as [|[|[|[|e']]]]; try lia;
    injection E; intros;
    try (split; [reflexivity|]; apply Hinj;
         first [apply (scaled_eq t t' w Hw); lra
               |apply (scaled_eq t t' h Hh); lra]);
    exfalso; nra.
Qed.

Lemma index_split (i n : nat) :
  (i < 4 * n)%nat ->
  exists e k, (e < 4)%nat /\ (k < n)%nat /\ i = (e * n + k)%nat.
Proof.
  intros Hi. assert (Hn : n <> 0%nat) by lia.
  exists (i / n)%nat, (i mod n)%nat.
  split; [apply Nat.Div0.div_lt_upper_bound; lia|].
  split; [apply Nat.mod_upper_bound; exact Hn|].
  rewrite (Nat.div_mod_eq i n) at 1. lia.
Qed.

Lemma trace_NoDup (lon lat w h : R) (res : Z) :
  0 < w -> 0 < h -> (1 <= res)%Z ->
  NoDup (map (vertex_of [trace_lon (lon - w * 0.5) w res;
                         trace_lat (lat - h * 0.5) h res])
             (seq 0 (4 * Z.to_nat res))).
Proof.
  intros Hw Hh H.
  set (V := [trace_lon (lon - w * 0.5) w res; trace_lat (lat - h * 0.5) h res]).
  apply (NoDup_nth _ (0, 0)).
  rewrite length_map, length_seq. intros i j Hi Hj E.
  rewrite !(nth_map_seq (vertex_of V)) in E by assumption.
  destruct (index_split i _ Hi) as (e & k & He & Hk & ->).
  destruct (index_split j _ Hj) as (e' & k' & He' & Hk' & ->).
  unfold V in E. rewrite !vertex_of_trace in E by assumption.
  destruct (boundary_vertex_inj lon lat w h res e k e' k'
              Hw Hh H He Hk He' Hk' E) as [-> ->].
  reflexivity.
Qed.

(** ** C3 *)

(** C3: for every valid specification the polygon has exactly
    [4 * resolution] vertices, and the path before rotation runs along the
    rectangle boundary from the bottom-left corner: right along the bottom
    edge, up the right edge, left along the top edge and down the left edge,
    [resolution] vertices per edge, no point of the path occurring twice. *)
Theorem C3_count_and_boundary_trace
  (anchor : Anchor) (width height theta : Quantity) (resolution : Z)
  (vertex_unit : Unit) (kwargs : PatchStyle) :
  valid_spec width height resolution vertex_unit ->
  exists vertices p,
    unrotated_path anchor width height resolution vertex_unit = inr vertices /\
    mySlit anchor width height theta resolution vertex_unit kwargs = inr p /\
    Z.of_nat (length (xy p)) = (4 * resolution)%Z /\
    (forall e k, (e < 4)%nat -> (k < Z.to_nat resolution)%nat ->
       vertex_of vertices (e * Z.to_nat resolution + k)
       = boundary_vertex (fst (anchor_to_value anchor vertex_unit))
           (snd (anchor_to_value anchor vertex_unit))
           (to_value width vertex_unit) (to_value height vertex_unit)
           resolution e k) /\
    NoDup (map (vertex_of vertices) (seq 0 (4 * Z.to_nat resolution))).
Proof.
  intros (Hw & Hh & Hres).
  eexists; eexists.
  split; [apply unrotated_path_closed; exact Hres|].
  split; [apply mySlit_closed; exact Hres|].
  cbn [xy]. rewrite rotated_rows_length, trace_lon_length.
  split; [lia|]. split.
  - intros e k He Hk. apply vertex_of_trace; assumption.
  - apply trace_NoDup; assumption.
Qed.

Lemma C3_count_and_boundary_trace_witness :
  valid_spec (mkQ 2 deg) (mkQ 4 deg) 3 deg /\
  exists vertices p,
    unrotated_path (AnchorArray 10 20 deg) (mkQ 2 deg) (mkQ 4 deg) 3 deg
      = inr vertices /\
    mySlit (AnchorArray 10 20 deg) (mkQ 2 deg) (mkQ 4 deg) (mkQ 30 deg) 3 deg
      marker_style = inr p /\
    Z.of_nat (length (xy p)) = (4 * 3)%Z /\
    (forall e k, (e < 4)%nat -> (k < Z.to_nat 3)%nat ->
       vertex_of vertices (e * Z.to_nat 3 + k)
       = boundary_vertex (fst (anchor_to_value (AnchorArray 10 20 deg) deg))
           (snd (anchor_to_value (AnchorArray 10 20 deg) deg))
           (to_value (mkQ 2 deg) deg) (to_value (mkQ 4 deg) deg) 3 e k) /\
    NoDup (map (vertex_of vertices) (seq 0 (4 * Z.to_nat 3))).
Proof.
  assert (V : valid_spec (mkQ 2 deg) (mkQ 4 deg) 3 deg).
  { unfold valid_spec, to_value, convert; simpl. repeat split; try lra; lia. }
  split; [exact V|].
  exact (C3_count_and_boundary_trace (AnchorArray 10 20 deg) (mkQ 2 deg)
           (mkQ 4 deg) (mkQ 30 deg) 3 deg marker_style V).
Defined.

(** ** C4 *)

Lemma to_value_zero (u v : Unit) : to_value (mkQ 0 u) v = 0.
Proof.
  unfold to_value, convert; cbn [unit value].
  destruct (unit_eqb u v); lra.
Qed.

Lemma rotated_about_zero (c v : R * R) : rotated_about 0 c v = [fst v; snd v].
Proof.
  unfold rotated_about, affine_image. rewrite cos_0, sin_0.
  apply f_equal2; [lra|]. apply f_equal2; [lra|reflexivity].
Qed.

(** With no rotation the row at the start of edge [e] is the corner where
    that edge begins. *)
Lemma unrotated_corner (lon lat w h : R) (res : Z) (e : nat) :
  (1 <= res)%Z -> (e < 4)%nat ->
  nth (e * Z.to_nat res)
    (rotated_rows 0 (lon, lat) (trace_lon (lon - w * 0.5) w res)
       (trace_lat (lat - h * 0.5) h res)) []
  = [fst (boundary_vertex lon lat w h res e 0);
     snd (boundary_vertex lon lat w h res e 0)].
Proof.
  intros H He.
  rewrite rotated_rows_nth by (rewrite trace_lon_length; nia).
  rewrite rotated_about_zero.
  rewrite <- (vertex_of_trace lon lat w h res e 0) by lia.
  rewrite Nat.add_0_r. reflexivity.
Qed.

(** C4: for every valid specification with [theta = 0], the vertices at
    positions [0], [resolution], [2 * resolution] and [3 * resolution] are
    the corners [(lon - w/2, lat - h/2)], [(lon + w/2, lat - h/2)],
    [(lon + w/2, lat + h/2)], [(lon - w/2, lat + h/2)], with [(lon, lat)] the
    centre and [w], [h] the width and height in the vertex unit. *)
Theorem C4_corners_at_edge_starts
  (anchor : Anchor) (width height : Quantity) (theta_unit : Unit)
  (resolution : Z) (vertex_unit : Unit) (kwargs : PatchStyle) :
  valid_spec width height resolution vertex_unit ->
  exists p,
    mySlit anchor width height (mkQ 0 theta_unit) resolution vertex_unit kwargs
      = inr p /\
    let lon := fst (anchor_to_value anchor vertex_unit) in
    let lat := snd (anchor_to_value anchor vertex_unit) in
    let w := to_value width vertex_unit in
    let h := to_value height vertex_unit in
    let n := Z.to_nat resolution in
    nth 0 (xy p) [] = [lon - w / 2; lat - h / 2] /\
    nth n (xy p) [] = [lon + w / 2; lat - h / 2] /\
    nth (2 * n) (xy p) [] = [lon + w / 2; lat + h / 2] /\
    nth (3 * n) (xy p) [] = [lon - w / 2; lat + h / 2].
Proof.
  intros (_ & _ & Hres).
  eexists. split; [apply mySlit_closed; exact Hres|].
  cbn [xy]. rewrite to_value_zero.
  destruct (anchor_to_value anchor vertex_unit) as [lon lat]. cbn [fst snd].
  set (w := to_value width vertex_unit).
  set (h := to_value height vertex_unit).
  pose proof (unrotated_corner lon lat w h resolution 0 Hres) as C0.
  pose proof (unrotated_corner lon lat w h resolution 1 Hres) as C1.
  pose proof (unrotated_corner lon lat w h resolution 2 Hres) as C2.
  pose proof (unrotated_corner lon lat w h resolution 3 Hres) as C3.
  rewrite Nat.mul_0_l in C0. rewrite Nat.mul_1_l in C1.
  cbv zeta.
  rewrite C0, C1, C2, C3 by lia.
  cbn [boundary_vertex fst snd Z.of_nat]. unfold Rdiv at 1 3 5 7.
  repeat split; (apply f_equal2; [|apply f_equal2; [|reflexivity]]); lra.
Qed.

Lemma C4_corners_at_edge_starts_witness :
  valid_spec (mkQ 2 deg) (mkQ 4 deg) 3 deg /\
  exists p,
    mySlit (AnchorArray 10 20 deg) (mkQ 2 deg) (mkQ 4 deg) (mkQ 0 deg) 3 deg
      marker_style = inr p /\
    nth 0 (xy p) [] = [10 - 2 / 2; 20 - 4 / 2] /\
    nth 3 (xy p) [] = [10 + 2 / 2; 20 - 4 / 2] /\
    nth 6 (xy p) [] = [10 + 2 / 2; 20 + 4 / 2] /\
    nth 9 (xy p) [] = [10 - 2 / 2; 20 + 4 / 2].
Proof.
  assert (V : valid_spec (mkQ 2 deg) (mkQ 4 deg) 3 deg).
  { unfold valid_spec, to_value, convert; simpl. repeat split; try lra; lia. }
  split; [exact V|].
  exact (C4_corners_at_edge_starts (AnchorArray 10 20 deg) (mkQ 2 deg)
           (mkQ 4 deg) deg 3 deg marker_style V).
Defined.

(** ** C5 *)

Lemma to_value_qneg (q : Quantity) (u : Unit) :
  to_value (qneg q) u = - to_value q u.
Proof.
  unfold to_value, convert, qneg; cbn [unit value].
  destruct (unit_eqb (unit q) u); ring.
Qed.

Lemma center_of_rows (anchor : Anchor) (u : Unit) :
  center_of anchor u
  = [[fst (anchor_to_value anchor u); snd (anchor_to_value anchor u)]].
Proof.
  unfold center_of. destruct (anchor_to_value anchor u); reflexivity.
Qed.

(** Undoing a rotation, one vertex. *)
Lemma rotated_back (theta : R) (c v : R * R) :
  rotated_about (- theta) c
    (nth 0 (rotated_about theta c v) 0, nth 1 (rotated_about theta c v) 0)
  = rotated_about 0 c v.
Proof.
  unfold rotated_about, affine_image. cbn [nth fst snd].
  rewrite cos_neg, sin_neg, cos_0, sin_0.
  pose proof (sin2_cos2 theta) as H. unfold Rsqr in H.
  set (s := sin theta) in *. set (k := cos theta) in *.
  apply f_equal2; [|apply f_equal2; [|reflexivity]].
  - transitivity ((s * s + k * k) * (fst v - fst c) + fst c);
      [ring | rewrite H; ring].
  - transitivity ((s * s + k * k) * (snd v - snd c) + snd c);
      [ring | rewrite H; ring].
Qed.

(** The N x 2 output of the builder, transposed back to 2 x N. *)
Lemma transpose_rotated_rows (theta : R) (c : R * R) (lon lat : list R) :
  (1 <= length lon)%nat ->
  transpose (rotated_rows theta c lon lat)
  = [map (fun i => nth 0 (rotated_about theta c (nth i lon 0, nth i lat 0)) 0)
         (seq 0 (length lon));
     map (fun i => nth 1 (rotated_about theta c (nth i lon 0, nth i lat 0)) 0)
         (seq 0 (length lon))].
Proof.
  intros Hn. unfold transpose, rotated_rows.
  destruct (length lon) as [|m] eqn:E; [lia|].
  cbn [seq map ncols rotated_about affine_image length col].
  rewrite !map_map. reflexivity.
Qed.

Lemma rotate_back_rows (theta : R) (cx cy : R) (lon lat : list R) :
  (1 <= length lon)%nat ->
  rotate_quadrangle (- theta) [[cx; cy]]
    (transpose (rotated_rows theta (cx, cy) lon lat))
  = rotated_rows 0 (cx, cy) lon lat.
Proof.
  intros Hn. rewrite transpose_rotated_rows by exact Hn.
  unfold rotate_quadrangle, rot_matrix.
  rewrite rotate_with_rows by (rewrite !length_map; reflexivity).
  rewrite length_map, length_seq. unfold rotated_rows.
  apply map_ext_in. intros i Hi. apply in_seq in Hi.
  rewrite !nth_map_seq by lia.
  apply rotated_back.
Qed.

(** C5: for every valid specification and every angle [theta], the polygon
    built with rotation [theta], put through the builder's rotation step
    with angle [- theta] about the same centre, is the polygon built with
    rotation [0]; in exact arithmetic the two agree exactly. *)
Theorem C5_rotation_round_trip
  (anchor : Anchor) (width height theta : Quantity) (resolution : Z)
  (vertex_unit : Unit) (kwargs : PatchStyle) :
  valid_spec width height resolution vertex_unit ->
  exists p p0,
    mySlit anchor width height theta resolution vertex_unit kwargs = inr p /\
    mySlit anchor width height (mkQ 0 (unit theta)) resolution vertex_unit
      kwargs = inr p0 /\
    rotate_quadrangle (to_value (qneg theta) rad)
      (center_of anchor vertex_unit) (transpose (xy p))
    = xy p0.
Proof.
  intros (_ & _ & Hres).
  eexists; eexists.
  split; [apply mySlit_closed; exact Hres|].
  split; [apply mySlit_closed; exact Hres|].
  cbn [xy]. rewrite to_value_zero, to_value_qneg, center_of_rows.
  destruct (anchor_to_value anchor vertex_unit) as [cx cy]. cbn [fst snd].
  apply rotate_back_rows. rewrite trace_lon_length. lia.
Qed.

Lemma C5_rotation_round_trip_witness :
  valid_spec (mkQ 2 deg) (mkQ 4 deg) 3 deg /\
  exists p p0,
    mySlit (AnchorArray 10 20 deg) (mkQ 2 deg) (mkQ 4 deg) (mkQ 30 deg) 3 deg
      marker_style = inr p /\
    mySlit (AnchorArray 10 20 deg) (mkQ 2 deg) (mkQ 4 deg) (mkQ 0 deg) 3 deg
      marker_style = inr p0 /\
    rotate_quadrangle (to_value (qneg (mkQ 30 deg)) rad)
      (center_of (AnchorArray 10 20 deg) deg) (transpose (xy p))
    = xy p0.
Proof.
  assert (V : valid_spec (mkQ 2 deg) (mkQ 4 deg) 3 deg).
  { unfold valid_spec, to_value, convert; simpl. repeat split; try lra; lia. }
  split; [exact V|].
  exact (C5_rotation_round_trip (AnchorArray 10 20 deg) (mkQ 2 deg)
           (mkQ 4 deg) (mkQ 30 deg) 3 deg marker_style V).
Defined.

(** ** C6 *)

Lemma map_nth_all {A : Type} (l : list A) (d : A) :
  map (fun i => nth i l d) (seq 0 (length l)) = l.
Proof.
  induction l as [|x l IH]; [reflexivity|].
  cbn [length seq map nth]. f_equal.
  rewrite <- seq_shift, map_map. exact IH.
Qed.

Lemma Rsum_combination (a b d : R) (f g : nat -> R) (l : list nat) :
  Rsum (map (fun i => a * f i + b * g i + d) l)
  = a * Rsum (map f l) + b * Rsum (map g l) + INR (length l) * d.
Proof.
  induction l as [|x l IH]; [simpl; lra|].
  cbn [map Rsum length]. rewrite IH, S_INR. lra.
Qed.

Lemma INR_to_nat (res : Z) : (0 <= res)%Z -> INR (Z.to_nat res) = IZR res.
Proof. intros H. rewrite INR_IZR_INZ. apply IZR_to_nat; exact H. Qed.

Lemma Rsum_grid (a w : R) (res : Z) (s n : nat) :
  Rsum (map (grid a w res) (seq s n))
  = INR n * a + w / IZR res * (INR n * INR s + INR n * (INR n - 1) / 2).
Proof.
  rewrite <- Rsum_progression. f_equal.
  apply map_ext. intros i. unfold grid, Rdiv. ring.
Qed.

Lemma Rsum_trace_lon (L w : R) (res : Z) :
  (1 <= res)%Z -> Rsum (trace_lon L w res) = 4 * IZR res * (L + w / 2).
Proof.
  intros H. unfold trace_lon.
  rewrite !Rsum_app, Rsum_rev, !Rsum_grid, !Rsum_repeat.
  rewrite INR_to_nat by lia. cbn [INR].
  assert (1 <= IZR res) by (apply IZR_le; exact H).
  field; lra.
Qed.

Lemma Rsum_trace_lat (B h : R) (res : Z) :
  (1 <= res)%Z -> Rsum (trace_lat B h res) = 4 * IZR res * (B + h / 2).
Proof.
  intros H. unfold trace_lat.
  rewrite !Rsum_app, Rsum_rev, !Rsum_grid, !Rsum_repeat.
  rewrite INR_to_nat by lia. cbn [INR].
  assert (1 <= IZR res) by (apply IZR_le; exact H).
  field; lra.
Qed.

Lemma Rsum_rotated_rows (theta cx cy : R) (lon lat : list R) :
  length lat = length lon ->
  Rsum (col 0 (rotated_rows theta (cx, cy) lon lat))
  = cos theta * (Rsum lon - INR (length lon) * cx)
    + sin theta * (Rsum lat - INR (length lon) * cy)
    + INR (length lon) * cx
  /\
  Rsum (col 1 (rotated_rows theta (cx, cy) lon lat))
  = - sin theta * (Rsum lon - INR (length lon) * cx)
    + cos theta * (Rsum lat - INR (length lon) * cy)
    + INR (length lon) * cy.
Proof.
  intros Hlen. unfold col, rotated_rows, rotated_about, affine_image.
  rewrite !map_map. cbn [nth fst snd].
  split.
  - rewrite (map_ext _ (fun i => cos theta * nth i lon 0
                                 + sin theta * nth i lat 0
                                 + (cx - cos theta * cx - sin theta * cy)))
      by (intros i; ring).
    rewrite Rsum_combination, length_seq, map_nth_all.
    rewrite <- Hlen at 1. rewrite map_nth_all. ring.
  - rewrite (map_ext _ (fun i => - sin theta * nth i lon 0
                                 + cos theta * nth i lat 0
                                 + (cy + sin theta * cx - cos theta * cy)))
      by (intros i; ring).
    rewrite Rsum_combination, length_seq, map_nth_all.
    rewrite <- Hlen at 1. rewrite map_nth_all. ring.
Qed.

(** The mean of the vertices of the builder's output is the centre. *)
Lemma centroid_rotated_rows (theta cx cy w h : R) (res : Z) :
  (1 <= res)%Z ->
  centroid (rotated_rows theta (cx, cy) (trace_lon (cx - w * 0.5) w res)
              (trace_lat (cy - h * 0.5) h res))
  = (cx, cy).
Proof.
  intros H. unfold centroid.
  destruct (Rsum_rotated_rows theta cx cy
              (trace_lon (cx - w * 0.5) w res)
              (trace_lat (cy - h * 0.5) h res)) as [Ex Ey].
  { rewrite trace_lon_length, trace_lat_length; reflexivity. }
  rewrite Ex, Ey, rotated_rows_length, trace_lon_length.
  rewrite Rsum_trace_lon, Rsum_trace_lat by exact H.
  rewrite !decimal_half.
  replace (INR (4 * Z.to_nat res)) with (4 * IZR res)
    by (rewrite mult_INR, INR_to_nat by lia; simpl; ring).
  assert (1 <= IZR res) by (apply IZR_le; exact H).
  apply f_equal2; field; lra.
Qed.

(** C6: for every valid specification and every rotation angle, the
    arithmetic mean of the [4 * resolution] vertices of the polygon is the
    centre of the quadrangle. *)
Theorem C6_centroid_is_center
  (anchor : Anchor) (width height theta : Quantity) (resolution : Z)
  (vertex_unit : Unit) (kwargs : PatchStyle) :
  valid_spec width height resolution vertex_unit ->
  exists p,
    mySlit anchor width height theta resolution vertex_unit kwargs = inr p /\
    Z.of_nat (length (xy p)) = (4 * resolution)%Z /\
    centroid (xy p) = anchor_to_value anchor vertex_unit.
Proof.
  intros (_ & _ & Hres).
  eexists. split; [apply mySlit_closed; exact Hres|].
  cbn [xy]. rewrite rotated_rows_length, trace_lon_length.
  split; [lia|].
  destruct (anchor_to_value anchor vertex_unit) as [cx cy]. cbn [fst snd].
  apply centroid_rotated_rows; exact Hres.
Qed.

Lemma C6_centroid_is_center_witness :
  valid_spec (mkQ 2 deg) (mkQ 4 deg) 3 deg /\
  exists p,
    mySlit (AnchorArray 10 20 deg) (mkQ 2 deg) (mkQ 4 deg) (mkQ 30 deg) 3 deg
      marker_style = inr p /\
    Z.of_nat (length (xy p)) = (4 * 3)%Z /\
    centroid (xy p) = (10, 20).
Proof.
  assert (V : valid_spec (mkQ 2 deg) (mkQ 4 deg) 3 deg).
  { unfold valid_spec, to_value, convert; simpl. repeat split; try lra; lia. }
  split; [exact V|].
  exact (C6_centroid_is_center (AnchorArray 10 20 deg) (mkQ 2 deg)
           (mkQ 4 deg) (mkQ 30 deg) 3 deg marker_style V).
Defined.

(** ** C7 *)

Lemma row_eq (a b a' b' : R) : a = a' -> b = b' -> [a; b] = [a'; b'].
Proof. intros -> ->; reflexivity. Qed.

Lemma rotated_about_ext (theta : R) (c : R * R) (x y x' y' : R) :
  x = x' -> y = y' ->
  rotated_about theta c (x, y) = rotated_about theta c (x', y').
Proof. intros -> ->; reflexivity. Qed.

Lemma rotated_rows_resolution_one (theta cx cy w h : R) :
  rotated_rows theta (cx, cy) (trace_lon (cx - w * 0.5) w 1)
    (trace_lat (cy - h * 0.5) h 1)
  = map (rotated_about theta (cx, cy)) (corners cx cy w h).
Proof.
  unfold rotated_rows, trace_lon, trace_lat, corners.
  change (Z.to_nat 1) with 1%nat.
  cbn [seq map repeat rev app length nth].
  unfold grid. cbn [Z.of_nat Pos.of_succ_nat].
  repeat (apply f_equal2; [apply rotated_about_ext; lra|]).
  reflexivity.
Qed.

(** C7: with [resolution = 1] the polygon has exactly four vertices, the
    corners of the rectangle (each moved by the rotation, and so the plain
    corners when [theta = 0]); for centre (10, 20) deg, width 2 deg, height
    4 deg, [theta = 0] the path is [(9, 18), (11, 18), (11, 22), (9, 22)]. *)
Theorem C7_resolution_one_corners :
  (forall anchor width height theta vertex_unit kwargs,
     exists p,
       mySlit anchor width height theta 1 vertex_unit kwargs = inr p /\
       length (xy p) = 4%nat /\
       xy p = map (rotated_about (to_value theta rad)
                     (anchor_to_value anchor vertex_unit))
                (corners (fst (anchor_to_value anchor vertex_unit))
                   (snd (anchor_to_value anchor vertex_unit))
                   (to_value width vertex_unit)
                   (to_value height vertex_unit))) /\
  (forall anchor width height theta_unit vertex_unit kwargs,
     exists p,
       mySlit anchor width height (mkQ 0 theta_unit) 1 vertex_unit kwargs
         = inr p /\
       xy p = map (fun v => [fst v; snd v])
                (corners (fst (anchor_to_value anchor vertex_unit))
                   (snd (anchor_to_value anchor vertex_unit))
                   (to_value width vertex_unit)
                   (to_value height vertex_unit))) /\
  (forall kwargs,
     mySlit (AnchorArray 10 20 deg) (mkQ 2 deg) (mkQ 4 deg) (mkQ 0 deg) 1 deg
       kwargs
     = inr (mkPolygon [[9; 18]; [11; 18]; [11; 22]; [9; 22]] kwargs)).
Proof.
  split; [|split].
  - intros. eexists. split; [apply mySlit_closed; lia|].
    cbn [xy]. destruct (anchor_to_value anchor vertex_unit) as [cx cy].
    cbn [fst snd]. rewrite rotated_rows_resolution_one.
    split; reflexivity.
  - intros. eexists. split; [apply mySlit_closed; lia|].
    cbn [xy]. rewrite to_value_zero.
    destruct (anchor_to_value anchor vertex_unit) as [cx cy].
    cbn [fst snd]. rewrite rotated_rows_resolution_one.
    apply map_ext. intros v. apply rotated_about_zero.
  - intros. rewrite mySlit_closed by lia.
    rewrite to_value_zero.
    change (anchor_to_value (AnchorArray 10 20 deg) deg) with (10, 20).
    change (to_value (mkQ 2 deg) deg) with 2.
    change (to_value (mkQ 4 deg) deg) with 4.
    cbn [fst snd]. rewrite rotated_rows_resolution_one.
    unfold corners. cbn [map]. rewrite !rotated_about_zero. cbn [fst snd].
    do 2 f_equal.
    repeat (apply f_equal2; [apply row_eq; lra|]).
    reflexivity.
Qed.

(** ** C8 *)

(** C8: for every angle [theta] the matrix of the implementation,
    [[cos theta, sin theta], [- sin theta, cos theta]], is the usual
    counter-clockwise rotation matrix taken at [- theta], and the builder's
    rotation step by [theta] is the usual rotation by [- theta] about the
    centre. *)
Theorem C8_rotation_is_ccw_of_opposite_angle :
  (forall theta, rot_matrix theta = ccw_matrix (- theta)) /\
  (forall theta center vertices,
     rotate_quadrangle theta center vertices
     = rotate_with (ccw_matrix (- theta)) center vertices) /\
  (forall theta c v,
     rotated_about theta c v
     = affine_image (cos (- theta)) (- sin (- theta))
         (sin (- theta)) (cos (- theta)) c v).
Proof.
  assert (E : forall theta, rot_matrix theta = ccw_matrix (- theta)).
  { intros theta. unfold rot_matrix, ccw_matrix.
    rewrite cos_neg, sin_neg, Ropp_involutive. reflexivity. }
  split; [exact E|]. split.
  - intros. unfold rotate_quadrangle. rewrite E. reflexivity.
  - intros. unfold rotated_about.
    rewrite cos_neg, sin_neg, Ropp_involutive. reflexivity.
Qed.

(** ** Two runs of the model *)

(** Two steps per edge: the order of the eight vertices before rotation. *)
Example trace_resolution_two :
  quadrangle_trace 0 0 2 4 2
  = inr [[-1; 0; 1; 1; 1; 0; -1; -1]; [-2; -2; -2; 0; 2; 2; 2; 0]].
Proof.
  rewrite quadrangle_trace_closed by lia.
  unfold trace_lon, trace_lat, grid. change (Z.to_nat 2) with 2%nat.
  cbn [seq map repeat rev app Z.of_nat Pos.of_succ_nat Pos.succ].
  f_equal. apply f_equal2; [|apply f_equal2; [|reflexivity]];
    repeat (apply f_equal2; [lra|]); reflexivity.
Qed.

(** A position angle of 90 degrees takes [(x, y)] to [(y, - x)] about the
    centre: the builder turns clockwise in the (lon, lat) plane. *)
Example quarter_turn :
  mySlit (AnchorArray 0 0 deg) (mkQ 2 deg) (mkQ 4 deg) (mkQ 90 deg) 1 deg
    marker_style
  = inr (mkPolygon [[-2; 1]; [-2; -1]; [2; -1]; [2; 1]] marker_style).
Proof.
  rewrite mySlit_closed by lia.
  change (anchor_to_value (AnchorArray 0 0 deg) deg) with (0, 0).
  change (to_value (mkQ 2 deg) deg) with 2.
  change (to_value (mkQ 4 deg) deg) with 4.
  replace (to_value (mkQ 90 deg) rad) with (PI / 2)
    by (unfold to_value, convert; cbn [unit value unit_eqb scale]; field).
  cbn [fst snd]. rewrite rotated_rows_resolution_one.
  unfold corners, rotated_about, affine_image. cbn [map fst snd].
  rewrite cos_PI2, sin_PI2. do 2 f_equal.
  repeat (apply f_equal2; [apply row_eq; lra|]). reflexivity.
Qed.

(** ** C2 *)

Lemma quadrangle_trace_resolution_zero (lon_c lat_c w h : R) :
  quadrangle_trace lon_c lat_c w h 0 = inr [[]; []].
Proof. reflexivity. Qed.

Lemma mySlit_resolution_zero (anchor : Anchor) (width height theta : Quantity)
  (u : Unit) (kwargs : PatchStyle) :
  mySlit anchor width height theta 0 u kwargs = inr (mkPolygon [] kwargs).
Proof.
  unfold mySlit. destruct (anchor_to_value anchor u) as [cx cy].
  rewrite quadrangle_trace_resolution_zero. reflexivity.
Qed.

Lemma quadrangle_trace_negative (lon_c lat_c w h : R) (res : Z) :
  (res < 0)%Z ->
  quadrangle_trace lon_c lat_c w h res
  = inl (if (res =? -1)%Z then IndexError else ValueError).
Proof.
  intros H. destruct (Z.eqb_spec res (-1)) as [->|Hne].
  - reflexivity.
  - unfold quadrangle_trace, linspace.
    destruct (Z.ltb_spec (res + 1) 0); [reflexivity|lia].
Qed.

Lemma mySlit_negative (anchor : Anchor) (width height theta : Quantity)
  (res : Z) (u : Unit) (kwargs : PatchStyle) :
  (res < 0)%Z ->
  mySlit anchor width height theta res u kwargs
  = inl (if (res =? -1)%Z then IndexError else ValueError).
Proof.
  intros H. unfold mySlit. destruct (anchor_to_value anchor u) as [cx cy].
  rewrite quadrangle_trace_negative by exact H. reflexivity.
Qed.

Lemma mySlit_unrotated_resolution_one (anchor : Anchor)
  (width height : Quantity) (theta_unit u : Unit) (kwargs : PatchStyle) :
  mySlit anchor width height (mkQ 0 theta_unit) 1 u kwargs
  = inr (mkPolygon
           (map (fun v => [fst v; snd v])
              (corners (fst (anchor_to_value anchor u))
                 (snd (anchor_to_value anchor u))
                 (to_value width u) (to_value height u)))
           kwargs).
Proof.
  rewrite mySlit_closed by lia. rewrite to_value_zero.
  destruct (anchor_to_value anchor u) as [cx cy]. cbn [fst snd].
  rewrite rotated_rows_resolution_one. do 2 f_equal.
  apply map_ext. intros v. apply rotated_about_zero.
Qed.

(** C2, as stated, fails: with width 0, with height -1 and with resolution 0
    the builder returns a polygon and raises nothing. *)
Lemma C2_counterexample :
  mySlit (AnchorArray 10 20 deg) (mkQ 0 deg) (mkQ 4 deg) (mkQ 0 deg) 1 deg
    marker_style
  = inr (mkPolygon [[10; 18]; [10; 18]; [10; 22]; [10; 22]] marker_style) /\
  mySlit (AnchorArray 10 20 deg) (mkQ 2 deg) (mkQ (-1) deg) (mkQ 0 deg) 1 deg
    marker_style
  = inr (mkPolygon [[9; 20.5]; [11; 20.5]; [11; 19.5]; [9; 19.5]]
           marker_style) /\
  mySlit (AnchorArray 10 20 deg) (mkQ 2 deg) (mkQ 4 deg) (mkQ 0 deg) 0 deg
    marker_style
  = inr (mkPolygon [] marker_style) /\
  ~ (raises (mySlit (AnchorArray 10 20 deg) (mkQ 0 deg) (mkQ 4 deg)
               (mkQ 0 deg) 1 deg marker_style) \/
     raises (mySlit (AnchorArray 10 20 deg) (mkQ 2 deg) (mkQ (-1) deg)
               (mkQ 0 deg) 1 deg marker_style) \/
     raises (mySlit (AnchorArray 10 20 deg) (mkQ 2 deg) (mkQ 4 deg)
               (mkQ 0 deg) 0 deg marker_style)).
Proof.
  assert (A : mySlit (AnchorArray 10 20 deg) (mkQ 0 deg) (mkQ 4 deg)
                (mkQ 0 deg) 1 deg marker_style
              = inr (mkPolygon [[10; 18]; [10; 18]; [10; 22]; [10; 22]]
                       marker_style)).
  { rewrite mySlit_unrotated_resolution_one. do 2 f_equal.
    unfold corners, to_value, convert; cbn.
    repeat (apply f_equal2; [apply row_eq; lra|]). reflexivity. }
  assert (B : mySlit (AnchorArray 10 20 deg) (mkQ 2 deg) (mkQ (-1) deg)
                (mkQ 0 deg) 1 deg marker_style
              = inr (mkPolygon [[9; 20.5]; [11; 20.5]; [11; 19.5]; [9; 19.5]]
                       marker_style)).
  { rewrite mySlit_unrotated_resolution_one. do 2 f_equal.
    unfold corners, to_value, convert; cbn.
    repeat (apply f_equal2; [apply row_eq; lra|]). reflexivity. }
  assert (C : mySlit (AnchorArray 10 20 deg) (mkQ 2 deg) (mkQ 4 deg)
                (mkQ 0 deg) 0 deg marker_style
              = inr (mkPolygon [] marker_style))
    by apply mySlit_resolution_zero.
  repeat split; try assumption.
  rewrite A, B, C. intros [[e E]|[[e E]|[e E]]]; discriminate E.
Qed.

(** C2, amended: construction with width 0 or height -1 does not fail: for
    [1 <= resolution] it returns a polygon with the full path of
    [4 * resolution] vertices; construction with resolution 0 does not fail
    either: the builder raises nothing and hands the vertex array without
    rows to the polygon constructor. *)
Theorem C2_no_validation
  (anchor : Anchor) (width height theta : Quantity) (width_unit height_unit : Unit)
  (resolution : Z) (vertex_unit : Unit) (kwargs : PatchStyle) :
  (1 <= resolution)%Z ->
  (exists p,
     mySlit anchor (mkQ 0 width_unit) height theta resolution vertex_unit kwargs
       = inr p /\
     Z.of_nat (length (xy p)) = (4 * resolution)%Z) /\
  (exists p,
     mySlit anchor width (mkQ (-1) height_unit) theta resolution vertex_unit
       kwargs = inr p /\
     Z.of_nat (length (xy p)) = (4 * resolution)%Z) /\
  mySlit anchor width height theta 0 vertex_unit kwargs
    = inr (mkPolygon [] kwargs).
Proof.
  intros Hres.
  assert (G : forall wq hq res, (1 <= res)%Z ->
            exists p, mySlit anchor wq hq theta res vertex_unit kwargs = inr p /\
                      Z.of_nat (length (xy p)) = (4 * res)%Z).
  { intros wq hq res H. eexists. split; [apply mySlit_closed; exact H|].
    cbn [xy]. rewrite rotated_rows_length, trace_lon_length. lia. }
  split; [apply G; exact Hres|].
  split; [apply G; exact Hres|].
  apply mySlit_resolution_zero.
Qed.

Lemma C2_no_validation_witness :
  (1 <= 3)%Z /\
  (exists p,
     mySlit (AnchorArray 10 20 deg) (mkQ 0 arcsec) (mkQ 4 deg) (mkQ 30 deg) 3
       deg marker_style = inr p /\
     Z.of_nat (length (xy p)) = (4 * 3)%Z) /\
  (exists p,
     mySlit (AnchorArray 10 20 deg) (mkQ 2 deg) (mkQ (-1) arcmin) (mkQ 30 deg)
       3 deg marker_style = inr p /\
     Z.of_nat (length (xy p)) = (4 * 3)%Z) /\
  mySlit (AnchorArray 10 20 deg) (mkQ 2 deg) (mkQ 4 deg) (mkQ 30 deg) 0 deg
    marker_style = inr (mkPolygon [] marker_style).
Proof.
  split; [lia|].
  apply (C2_no_validation (AnchorArray 10 20 deg) (mkQ 2 deg) (mkQ 4 deg)
           (mkQ 30 deg) arcsec arcmin 3 deg marker_style).
  lia.
Defined.

(** ** The driver *)

Lemma main_anchor_degrees (pargs : Args) (hdr : Header) :
  anchor_to_value (main_anchor pargs hdr) deg
  = (15 * RA hdr + dec_corr pargs / 3600, DEC hdr + ra_corr pargs / 3600).
Proof.
  unfold main_anchor, radec_slit, anchor_to_value, qadd, to_value, convert.
  cbn [fst snd unit value unit_eqb scale].
  pose proof PI_neq0 as HPI.
  apply f_equal2; field; exact HPI.
Qed.

Lemma mySlit_default_resolution (anchor : Anchor)
  (width height theta : Quantity) (kwargs : PatchStyle) :
  exists p,
    mySlit anchor width height theta default_resolution default_vertex_unit
      kwargs = inr p /\
    length (xy p) = 400%nat /\
    style p = kwargs /\
    centroid (xy p) = anchor_to_value anchor default_vertex_unit.
Proof.
  unfold default_resolution.
  eexists. split; [apply mySlit_closed; lia|].
  cbn [xy style]. rewrite rotated_rows_length, trace_lon_length.
  split; [reflexivity|]. split; [reflexivity|].
  destruct (anchor_to_value anchor default_vertex_unit) as [cx cy].
  cbn [fst snd]. apply centroid_rotated_rows; lia.
Qed.

Lemma main_patches (pargs : Args) (image_data : matrix) (hdr : Header) :
  exists s c,
    mySlit (main_anchor pargs hdr) (mkQ 1.0 arcsec) (mkQ 3.0 arcmin)
      (mkQ (POSANG hdr) deg) default_resolution default_vertex_unit slit_style
      = inr s /\
    mySlit (main_anchor pargs hdr) (mkQ 0.1 arcsec) (mkQ 0.1 arcmin)
      (mkQ (POSANG hdr + 90) deg) default_resolution default_vertex_unit
      marker_style = inr c /\
    main pargs image_data hdr
    = inr (0%Z, [image pargs],
           mkAxes (OBJECT hdr) [(image_data, "bone"%string)] [s; c]) /\
    centroid (xy s) = anchor_to_value (main_anchor pargs hdr) deg /\
    centroid (xy c) = anchor_to_value (main_anchor pargs hdr) deg.
Proof.
  destruct (mySlit_default_resolution (main_anchor pargs hdr) (mkQ 1.0 arcsec)
              (mkQ 3.0 arcmin) (mkQ (POSANG hdr) deg) slit_style)
    as (s & Es & _ & _ & Cs).
  destruct (mySlit_default_resolution (main_anchor pargs hdr) (mkQ 0.1 arcsec)
              (mkQ 0.1 arcmin) (mkQ (POSANG hdr + 90) deg) marker_style)
    as (c & Ec & _ & _ & Cc).
  exists s, c.
  split; [exact Es|]. split; [exact Ec|].
  split; [|split; assumption].
  unfold main. fold (main_anchor pargs hdr).
  rewrite Es. cbn [bind]. rewrite Ec. reflexivity.
Qed.

(** ** C9 *)

(** C9: in [main] the [--ra-corr] value (arcsec) is added to the declination
    of the slit centre and the [--dec-corr] value to its right ascension:
    the centre of both polygons is
    [(15 RA + dec_corr / 3600, DEC + ra_corr / 3600)] in degrees. *)
Theorem C9_corrections_are_swapped
  (pargs : Args) (image_data : matrix) (hdr : Header) :
  radec_slit pargs hdr
  = (qadd (mkQ (RA hdr) hourangle) (mkQ (dec_corr pargs) arcsec),
     qadd (mkQ (DEC hdr) deg) (mkQ (ra_corr pargs) arcsec)) /\
  anchor_to_value (main_anchor pargs hdr) deg
  = (15 * RA hdr + dec_corr pargs / 3600, DEC hdr + ra_corr pargs / 3600) /\
  exists out ax s c,
    main pargs image_data hdr = inr (0%Z, out, ax) /\
    patches ax = [s; c] /\
    centroid (xy s)
    = (15 * RA hdr + dec_corr pargs / 3600, DEC hdr + ra_corr pargs / 3600) /\
    centroid (xy c)
    = (15 * RA hdr + dec_corr pargs / 3600, DEC hdr + ra_corr pargs / 3600).
Proof.
  split; [reflexivity|].
  split; [apply main_anchor_degrees|].
  destruct (main_patches pargs image_data hdr) as (s & c & _ & _ & E & Cs & Cc).
  rewrite main_anchor_degrees in Cs, Cc.
  eexists; eexists; exists s, c.
  split; [exact E|]. split; [reflexivity|]. split; assumption.
Qed.

(** ** C10 *)

(** C10: every run of [main] builds exactly two quadrangles, both at the
    same centre: the slit with rotation angle [PA] degrees and the marker
    with rotation angle [PA + 90] degrees, [PA] being the position angle of
    the spectrum header; they are the two patches of the axes, in this
    order. *)
Theorem C10_two_quadrangles_same_center
  (pargs : Args) (image_data : matrix) (hdr : Header) :
  exists s c,
    main pargs image_data hdr
    = inr (0%Z, [image pargs],
           mkAxes (OBJECT hdr) [(image_data, "bone"%string)] [s; c]) /\
    mySlit (main_anchor pargs hdr) (mkQ 1.0 arcsec) (mkQ 3.0 arcmin)
      (mkQ (POSANG hdr) deg) default_resolution default_vertex_unit slit_style
      = inr s /\
    mySlit (main_anchor pargs hdr) (mkQ 0.1 arcsec) (mkQ 0.1 arcmin)
      (mkQ (POSANG hdr + 90) deg) default_resolution default_vertex_unit
      marker_style = inr c /\
    centroid (xy s) = centroid (xy c) /\
    to_value (mkQ (POSANG hdr) deg) rad = POSANG hdr * (PI / 180) /\
    to_value (mkQ (POSANG hdr + 90) deg) rad
    = POSANG hdr * (PI / 180) + PI / 2.
Proof.
  destruct (main_patches pargs image_data hdr)
    as (s & c & Es & Ec & E & Cs & Cc).
  exists s, c.
  split; [exact E|]. split; [exact Es|]. split; [exact Ec|].
  split; [rewrite Cs, Cc; reflexivity|].
  unfold to_value, convert; cbn [unit value unit_eqb scale].
  split; field.
Qed.

(** ** Further properties of the builder *)

(** Row [i] of the output and vertex [i] of the unrotated path, for
    [1 <= resolution]. *)
Lemma mySlit_rows (anchor : Anchor) (width height theta : Quantity)
  (res : Z) (u : Unit) (kwargs : PatchStyle) :
  (1 <= res)%Z ->
  exists vertices p,
    unrotated_path anchor width height res u = inr vertices /\
    mySlit anchor width height theta res u kwargs = inr p /\
    length (xy p) = (4 * Z.to_nat res)%nat /\
    (forall i, (i < 4 * Z.to_nat res)%nat ->
       nth i (xy p) []
       = rotated_about (to_value theta rad) (anchor_to_value anchor u)
           (vertex_of vertices i)) /\
    (forall e k, (e < 4)%nat -> (k < Z.to_nat res)%nat ->
       vertex_of vertices (e * Z.to_nat res + k)
       = boundary_vertex (fst (anchor_to_value anchor u))
           (snd (anchor_to_value anchor u))
           (to_value width u) (to_value height u) res e k).
Proof.
  intros H. eexists; eexists.
  split; [apply unrotated_path_closed; exact H|].
  split; [apply mySlit_closed; exact H|].
  cbn [xy]. rewrite rotated_rows_length, trace_lon_length.
  split; [reflexivity|]. split.
  - intros i Hi. apply rotated_rows_nth. rewrite trace_lon_length; exact Hi.
  - intros e k He Hk. apply vertex_of_trace; assumption.
Qed.

Lemma boundary_vertex_in_box (lon lat w h : R) (res : Z) (e k : nat) :
  0 <= w -> 0 <= h -> (1 <= res)%Z ->
  (e < 4)%nat -> (k < Z.to_nat res)%nat ->
  let v := boundary_vertex lon lat w h res e k in
  lon - w / 2 <= fst v <= lon + w / 2 /\
  lat - h / 2 <= snd v <= lat + h / 2 /\
  (fst v = lon - w / 2 \/ fst v = lon + w / 2 \/
   snd v = lat - h / 2 \/ snd v = lat + h / 2).
Proof.
  intros Hw Hh H He Hk.
  pose proof (step_fraction res k H Hk) as Ht.
  unfold boundary_vertex.
  set (t := IZR (Z.of_nat k) / IZR res) in *.
  assert (0 <= t * w <= w) by nra.
  assert (0 <= t * h <= h) by nra.
  destruct e as [|[|[|[|e]]]]; [| | | |lia]; cbn [fst snd];
    (split; [lra|]); (split; [lra|]); auto.
Qed.

(** X1: with non-negative width and height and [1 <= resolution], every
    vertex of the path before rotation lies on the boundary of the rectangle
    [lon - w/2, lon + w/2] x [lat - h/2, lat + h/2]. *)
Theorem X1_unrotated_vertices_on_rectangle
  (anchor : Anchor) (width height : Quantity) (resolution : Z)
  (vertex_unit : Unit) :
  0 <= to_value width vertex_unit ->
  0 <= to_value height vertex_unit ->
  (1 <= resolution)%Z ->
  exists vertices,
    unrotated_path anchor width height resolution vertex_unit = inr vertices /\
    forall i, (i < 4 * Z.to_nat resolution)%nat ->
      let lon := fst (anchor_to_value anchor vertex_unit) in
      let lat := snd (anchor_to_value anchor vertex_unit) in
      let w := to_value width vertex_unit in
      let h := to_value height vertex_unit in
      let v := vertex_of vertices i in
      lon - w / 2 <= fst v <= lon + w / 2 /\
      lat - h / 2 <= snd v <= lat + h / 2 /\
      (fst v = lon - w / 2 \/ fst v = lon + w / 2 \/
       snd v = lat - h / 2 \/ snd v = lat + h / 2).
Proof.
  intros Hw Hh H.
  eexists. split; [apply unrotated_path_closed; exact H|].
  intros i Hi. destruct (index_split i _ Hi) as (e & k & He & Hk & ->).
  cbv zeta. rewrite vertex_of_trace by assumption.
  apply boundary_vertex_in_box; assumption.
Qed.

Lemma X1_unrotated_vertices_on_rectangle_witness :
  exists vertices,
    unrotated_path (AnchorArray 10 20 deg) (mkQ 2 deg) (mkQ 4 deg) 3 deg
      = inr vertices /\
    forall i, (i < 4 * Z.to_nat 3)%nat ->
      let v := vertex_of vertices i in
      10 - 2 / 2 <= fst v <= 10 + 2 / 2 /\
      20 - 4 / 2 <= snd v <= 20 + 4 / 2 /\
      (fst v = 10 - 2 / 2 \/ fst v = 10 + 2 / 2 \/
       snd v = 20 - 4 / 2 \/ snd v = 20 + 4 / 2).
Proof.
  apply (X1_unrotated_vertices_on_rectangle (AnchorArray 10 20 deg)
           (mkQ 2 deg) (mkQ 4 deg) 3 deg).
  - unfold to_value, convert; simpl; lra.
  - unfold to_value, convert; simpl; lra.
  - lia.
Defined.

(** The rotation about [c] keeps distances. *)
Lemma rotated_about_dist2 (theta : R) (c v v' : R * R) :
  dist2 (row_pair (rotated_about theta c v))
        (row_pair (rotated_about theta c v'))
  = dist2 v v'.
Proof.
  unfold dist2, row_pair, rotated_about, affine_image. cbn [nth fst snd].
  pose proof (sin2_cos2 theta) as H. unfold Rsqr in H.
  set (s := sin theta) in *. set (k := cos theta) in *.
  transitivity ((s * s + k * k)
                * ((fst v - fst v') * (fst v - fst v')
                   + (snd v - snd v') * (snd v - snd v')));
    [ring | rewrite H; ring].
Qed.

Lemma rotated_about_center (theta : R) (c : R * R) :
  row_pair (rotated_about theta c c) = c.
Proof.
  unfold row_pair, rotated_about, affine_image. cbn [nth].
  destruct c as [cx cy]. cbn [fst snd]. apply f_equal2; ring.
Qed.

(** X2: the rotation step is a rigid motion: any two vertices of the polygon
    are as far apart as the two vertices of the unrotated path at the same
    positions, for every angle. *)
Theorem X2_rotation_keeps_distances
  (anchor : Anchor) (width height theta : Quantity) (resolution : Z)
  (vertex_unit : Unit) (kwargs : PatchStyle) :
  (1 <= resolution)%Z ->
  exists vertices p,
    unrotated_path anchor width height resolution vertex_unit = inr vertices /\
    mySlit anchor width height theta resolution vertex_unit kwargs = inr p /\
    forall i j, (i < length (xy p))%nat -> (j < length (xy p))%nat ->
      dist2 (row_pair (nth i (xy p) [])) (row_pair (nth j (xy p) []))
      = dist2 (vertex_of vertices i) (vertex_of vertices j).
Proof.
  intros H.
  destruct (mySlit_rows anchor width height theta resolution vertex_unit
              kwargs H) as (V & p & EV & Ep & Hlen & Hrow & _).
  exists V, p. split; [exact EV|]. split; [exact Ep|].
  rewrite Hlen. intros i j Hi Hj.
  rewrite (Hrow i Hi), (Hrow j Hj). apply rotated_about_dist2.
Qed.

Lemma X2_rotation_keeps_distances_witness :
  exists vertices p,
    unrotated_path (AnchorArray 10 20 deg) (mkQ 2 deg) (mkQ 4 deg) 3 deg
      = inr vertices /\
    mySlit (AnchorArray 10 20 deg) (mkQ 2 deg) (mkQ 4 deg) (mkQ 30 deg) 3 deg
      marker_style = inr p /\
    forall i j, (i < length (xy p))%nat -> (j < length (xy p))%nat ->
      dist2 (row_pair (nth i (xy p) [])) (row_pair (nth j (xy p) []))
      = dist2 (vertex_of vertices i) (vertex_of vertices j).
Proof.
  apply (X2_rotation_keeps_distances (AnchorArray 10 20 deg) (mkQ 2 deg)
           (mkQ 4 deg) (mkQ 30 deg) 3 deg marker_style).
  lia.
Defined.

Lemma boundary_vertex_radius (lon lat w h : R) (res : Z) (e k : nat) :
  (1 <= res)%Z -> (e < 4)%nat -> (k < Z.to_nat res)%nat ->
  dist2 (boundary_vertex lon lat w h res e k) (lon, lat)
  <= (w * w + h * h) / 4.
Proof.
  intros H He Hk.
  pose proof (step_fraction res k H Hk) as Ht.
  unfold boundary_vertex, dist2.
  set (t := IZR (Z.of_nat k) / IZR res) in *.
  assert (Ht2 : 0 <= t * (1 - t)) by (apply Rmult_le_pos; lra).
  assert (Hw : 0 <= w * w * (t * (1 - t)))
    by (apply Rmult_le_pos; [nra|exact Ht2]).
  assert (Hh : 0 <= h * h * (t * (1 - t)))
    by (apply Rmult_le_pos; [nra|exact Ht2]).
  destruct e as [|[|[|[|e]]]]; [| | | |lia]; cbn [fst snd]; nra.
Qed.

(** X3: for every angle, every vertex of the polygon lies within the
    half-diagonal of the rectangle from the centre:
    [|v - center|^2 <= (w^2 + h^2) / 4]. *)
Theorem X3_vertices_within_half_diagonal
  (anchor : Anchor) (width height theta : Quantity) (resolution : Z)
  (vertex_unit : Unit) (kwargs : PatchStyle) :
  (1 <= resolution)%Z ->
  exists p,
    mySlit anchor width height theta resolution vertex_unit kwargs = inr p /\
    forall i, (i < length (xy p))%nat ->
      dist2 (row_pair (nth i (xy p) [])) (anchor_to_value anchor vertex_unit)
      <= (to_value width vertex_unit * to_value width vertex_unit
          + to_value height vertex_unit * to_value height vertex_unit) / 4.
Proof.
  intros H.
  destruct (mySlit_rows anchor width height theta resolution vertex_unit
              kwargs H) as (V & p & EV & Ep & Hlen & Hrow & Hb).
  exists p. split; [exact Ep|].
  rewrite Hlen. intros i Hi. rewrite (Hrow i Hi).
  rewrite <- (rotated_about_center (to_value theta rad)
                (anchor_to_value anchor vertex_unit)) at 2.
  rewrite rotated_about_dist2.
  destruct (index_split i _ Hi) as (e & k & He & Hk & ->).
  rewrite (Hb e k He Hk).
  destruct (anchor_to_value anchor vertex_unit) as [cx cy]. cbn [fst snd].
  apply boundary_vertex_radius; assumption.
Qed.

Lemma X3_vertices_within_half_diagonal_witness :
  exists p,
    mySlit (AnchorArray 10 20 deg) (mkQ 2 deg) (mkQ 4 deg) (mkQ 30 deg) 3 deg
      marker_style = inr p /\
    forall i, (i < length (xy p))%nat ->
      dist2 (row_pair (nth i (xy p) [])) (10, 20) <= (2 * 2 + 4 * 4) / 4.
Proof.
  apply (X3_vertices_within_half_diagonal (AnchorArray 10 20 deg) (mkQ 2 deg)
           (mkQ 4 deg) (mkQ 30 deg) 3 deg marker_style).
  lia.
Defined.

(** Two rotation steps about the same centre, one vertex. *)
Lemma rotated_again (alpha beta : R) (c v : R * R) :
  rotated_about beta c (row_pair (rotated_about alpha c v))
  = rotated_about (alpha + beta) c v.
Proof.
  unfold rotated_about, affine_image, row_pair. cbn [nth fst snd].
  rewrite cos_plus, sin_plus.
  apply f_equal2; [ring|]. apply f_equal2; [ring|reflexivity].
Qed.

Lemma rotate_again_rows (alpha beta cx cy : R) (lon lat : list R) :
  (1 <= length lon)%nat ->
  rotate_quadrangle beta [[cx; cy]]
    (transpose (rotated_rows alpha (cx, cy) lon lat))
  = rotated_rows (alpha + beta) (cx, cy) lon lat.
Proof.
  intros Hn. rewrite transpose_rotated_rows by exact Hn.
  unfold rotate_quadrangle, rot_matrix.
  rewrite rotate_with_rows by (rewrite !length_map; reflexivity).
  rewrite length_map, length_seq. unfold rotated_rows.
  apply map_ext_in. intros i Hi. apply in_seq in Hi.
  rewrite !nth_map_seq by lia.
  apply rotated_again.
Qed.

Lemma to_value_plus (a b : R) (u v : Unit) :
  to_value (mkQ (a + b) u) v = to_value (mkQ a u) v + to_value (mkQ b u) v.
Proof.
  unfold to_value, convert; cbn [unit value].
  destruct (unit_eqb u v); ring.
Qed.

(** X4: rotation steps add up: the polygon built with angle [a], put through
    the builder's rotation step with angle [b] about the same centre, is the
    polygon built with angle [a + b]. *)
Theorem X4_rotation_steps_add
  (anchor : Anchor) (width height : Quantity) (a b : R) (theta_unit : Unit)
  (resolution : Z) (vertex_unit : Unit) (kwargs : PatchStyle) :
  (1 <= resolution)%Z ->
  exists p p',
    mySlit anchor width height (mkQ a theta_unit) resolution vertex_unit kwargs
      = inr p /\
    mySlit anchor width height (mkQ (a + b) theta_unit) resolution vertex_unit
      kwargs = inr p' /\
    rotate_quadrangle (to_value (mkQ b theta_unit) rad)
      (center_of anchor vertex_unit) (transpose (xy p))
    = xy p'.
Proof.
  intros H. eexists; eexists.
  split; [apply mySlit_closed; exact H|].
  split; [apply mySlit_closed; exact H|].
  cbn [xy]. rewrite to_value_plus, center_of_rows.
  destruct (anchor_to_value anchor vertex_unit) as [cx cy]. cbn [fst snd].
  apply rotate_again_rows. rewrite trace_lon_length. lia.
Qed.

Lemma X4_rotation_steps_add_witness :
  exists p p',
    mySlit (AnchorArray 10 20 deg) (mkQ 2 deg) (mkQ 4 deg) (mkQ 30 deg) 3 deg
      marker_style = inr p /\
    mySlit (AnchorArray 10 20 deg) (mkQ 2 deg) (mkQ 4 deg) (mkQ (30 + 90) deg)
      3 deg marker_style = inr p' /\
    rotate_quadrangle (to_value (mkQ 90 deg) rad)
      (center_of (AnchorArray 10 20 deg) deg) (transpose (xy p))
    = xy p'.
Proof.
  apply (X4_rotation_steps_add (AnchorArray 10 20 deg) (mkQ 2 deg) (mkQ 4 deg)
           30 90 deg 3 deg marker_style).
  lia.
Defined.

Lemma rot_matrix_full_turn (theta : R) :
  rot_matrix (theta + 2 * PI) = rot_matrix theta.
Proof.
  unfold rot_matrix. rewrite cos_plus, sin_plus, cos_2PI, sin_2PI.
  repeat (apply f_equal2; [apply row_eq; ring|]). reflexivity.
Qed.

(** X5: the angle is not restricted to one turn: a position angle and the
    same angle plus 360 degrees (or plus [2 pi] radians) give the same
    result, whatever the other arguments. *)
Theorem X5_full_turn_changes_nothing
  (anchor : Anchor) (width height : Quantity) (a : R) (resolution : Z)
  (vertex_unit : Unit) (kwargs : PatchStyle) :
  mySlit anchor width height (mkQ (a + 360) deg) resolution vertex_unit kwargs
  = mySlit anchor width height (mkQ a deg) resolution vertex_unit kwargs /\
  mySlit anchor width height (mkQ (a + 2 * PI) rad) resolution vertex_unit
    kwargs
  = mySlit anchor width height (mkQ a rad) resolution vertex_unit kwargs.
Proof.
  unfold mySlit. destruct (anchor_to_value anchor vertex_unit) as [cx cy].
  unfold rotate_quadrangle.
  replace (to_value (mkQ (a + 360) deg) rad)
    with (to_value (mkQ a deg) rad + 2 * PI)
    by (unfold to_value, convert; cbn [unit value unit_eqb scale]; field).
  change (to_value (mkQ (a + 2 * PI) rad) rad) with (a + 2 * PI).
  change (to_value (mkQ a rad) rad) with a.
  rewrite !rot_matrix_full_turn. split; reflexivity.
Qed.

Lemma boundary_vertex_opposite (lon lat w h : R) (res : Z) (e k : nat) :
  (e < 2)%nat ->
  boundary_vertex lon lat w h res (e + 2) k
  = (2 * lon - fst (boundary_vertex lon lat w h res e k),
     2 * lat - snd (boundary_vertex lon lat w h res e k)).
Proof.
  intros He. unfold boundary_vertex. cbv zeta.
  set (t := IZR (Z.of_nat k) / IZR res).
  destruct e as [|[|e]]; [| |lia]; cbn [Nat.add fst snd];
    apply f_equal2; field.
Qed.

Lemma rotated_about_reflected (theta : R) (c v : R * R) :
  rotated_about theta c (2 * fst c - fst v, 2 * snd c - snd v)
  = reflect_through c (rotated_about theta c v).
Proof.
  unfold rotated_about, affine_image, reflect_through. cbn [nth fst snd].
  apply f_equal2; [ring|]. apply f_equal2; [ring|reflexivity].
Qed.

(** X6: the polygon is symmetric about its centre: the vertex half-way round
    the path from vertex [i] is the mirror image of vertex [i] through the
    centre, for every angle. *)
Theorem X6_opposite_vertices_mirror
  (anchor : Anchor) (width height theta : Quantity) (resolution : Z)
  (vertex_unit : Unit) (kwargs : PatchStyle) :
  (1 <= resolution)%Z ->
  exists p,
    mySlit anchor width height theta resolution vertex_unit kwargs = inr p /\
    forall i, (i < 2 * Z.to_nat resolution)%nat ->
      nth (i + 2 * Z.to_nat resolution) (xy p) []
      = reflect_through (anchor_to_value anchor vertex_unit) (nth i (xy p) []).
Proof.
  intros H.
  destruct (mySlit_rows anchor width height theta resolution vertex_unit
              kwargs H) as (V & p & EV & Ep & Hlen & Hrow & Hb).
  exists p. split; [exact Ep|].
  intros i Hi.
  rewrite (Hrow i), (Hrow (i + 2 * Z.to_nat resolution)%nat) by lia.
  assert (Hi4 : (i < 4 * Z.to_nat resolution)%nat) by lia.
  destruct (index_split i _ Hi4) as (e & k & He & Hk & ->).
  assert (He2 : (e < 2)%nat) by nia.
  replace (e * Z.to_nat resolution + k + 2 * Z.to_nat resolution)%nat
    with ((e + 2) * Z.to_nat resolution + k)%nat by lia.
  rewrite (Hb e k), (Hb (e + 2)%nat k) by lia.
  rewrite boundary_vertex_opposite by exact He2.
  destruct (anchor_to_value anchor vertex_unit) as [cx cy]. cbn [fst snd].
  apply (rotated_about_reflected _ (cx, cy)).
Qed.

Lemma X6_opposite_vertices_mirror_witness :
  exists p,
    mySlit (AnchorArray 10 20 deg) (mkQ 2 deg) (mkQ 4 deg) (mkQ 30 deg) 3 deg
      marker_style = inr p /\
    forall i, (i < 2 * Z.to_nat 3)%nat ->
      nth (i + 2 * Z.to_nat 3) (xy p) []
      = reflect_through (10, 20) (nth i (xy p) []).
Proof.
  apply (X6_opposite_vertices_mirror (AnchorArray 10 20 deg) (mkQ 2 deg)
           (mkQ 4 deg) (mkQ 30 deg) 3 deg marker_style).
  lia.
Defined.

(** ** One builder call against another *)

(** Two calls whose boundary vertices correspond under [g], vertex by vertex,
    give outputs that correspond row by row. *)
Lemma traced_rows_map (g : list R -> list R)
  (theta cx cy w h theta' cx' cy' w' h' : R) (res : Z) :
  (1 <= res)%Z ->
  (forall e k, (e < 4)%nat -> (k < Z.to_nat res)%nat ->
     rotated_about theta' (cx', cy') (boundary_vertex cx' cy' w' h' res e k)
     = g (rotated_about theta (cx, cy) (boundary_vertex cx cy w h res e k))) ->
  rotated_rows theta' (cx', cy') (trace_lon (cx' - w' * 0.5) w' res)
    (trace_lat (cy' - h' * 0.5) h' res)
  = map g (rotated_rows theta (cx, cy) (trace_lon (cx - w * 0.5) w res)
             (trace_lat (cy - h * 0.5) h res)).
Proof.
  intros H Hg. unfold rotated_rows.
  rewrite map_map, !trace_lon_length.
  apply map_ext_in. intros i Hi. apply in_seq in Hi.
  destruct (index_split i (Z.to_nat res)) as (e & k & He & Hk & ->); [lia|].
  pose proof (vertex_of_trace cx cy w h res e k H He Hk) as E.
  pose proof (vertex_of_trace cx' cy' w' h' res e k H He Hk) as E'.
  unfold vertex_of in E, E'. cbn [nth] in E, E'.
  rewrite E, E'. apply Hg; assumption.
Qed.

Lemma mySlit_translated (anchor anchor' : Anchor)
  (width height theta : Quantity) (res : Z) (u : Unit)
  (kwargs kwargs' : PatchStyle) (dx dy : R) (p p' : Polygon) :
  (1 <= res)%Z ->
  anchor_to_value anchor' u
  = (fst (anchor_to_value anchor u) + dx, snd (anchor_to_value anchor u) + dy) ->
  mySlit anchor width height theta res u kwargs = inr p ->
  mySlit anchor' width height theta res u kwargs' = inr p' ->
  xy p' = translate (dx, dy) (xy p).
Proof.
  intros H Ha Ep Ep'.
  rewrite mySlit_closed in Ep, Ep' by exact H.
  injection Ep as <-. injection Ep' as <-. cbn [xy].
  rewrite Ha. destruct (anchor_to_value anchor u) as [cx cy]. cbn [fst snd].
  unfold translate. apply traced_rows_map; [exact H|].
  intros e k He Hk. cbn [fst snd].
  unfold rotated_about, affine_image, boundary_vertex. cbv zeta.
  set (t := IZR (Z.of_nat k) / IZR res).
  destruct e as [|[|[|[|e]]]]; [| | | |lia]; cbn [nth fst snd];
    (apply f_equal2; [ring|]; apply f_equal2; [ring|reflexivity]).
Qed.

(** X7: moving the anchor moves the polygon with it: if the centre of a
    second call is the centre of the first plus [(dx, dy)] in the vertex
    unit, all else equal, every vertex of the second polygon is the vertex of
    the first plus [(dx, dy)]. *)
Theorem X7_anchor_shift_translates
  (anchor anchor' : Anchor) (width height theta : Quantity) (resolution : Z)
  (vertex_unit : Unit) (kwargs : PatchStyle) (dx dy : R) :
  (1 <= resolution)%Z ->
  anchor_to_value anchor' vertex_unit
  = (fst (anchor_to_value anchor vertex_unit) + dx,
     snd (anchor_to_value anchor vertex_unit) + dy) ->
  exists p p',
    mySlit anchor width height theta resolution vertex_unit kwargs = inr p /\
    mySlit anchor' width height theta resolution vertex_unit kwargs = inr p' /\
    xy p' = translate (dx, dy) (xy p).
Proof.
  intros H Ha.
  destruct (mySlit_rows anchor width height theta resolution vertex_unit
              kwargs H) as (_ & p & _ & Ep & _).
  destruct (mySlit_rows anchor' width height theta resolution vertex_unit
              kwargs H) as (_ & p' & _ & Ep' & _).
  exists p, p'. split; [exact Ep|]. split; [exact Ep'|].
  exact (mySlit_translated anchor anchor' width height theta resolution
           vertex_unit kwargs kwargs dx dy p p' H Ha Ep Ep').
Qed.

Lemma X7_anchor_shift_translates_witness :
  exists p p',
    mySlit (AnchorArray 10 20 deg) (mkQ 2 deg) (mkQ 4 deg) (mkQ 30 deg) 3 deg
      marker_style = inr p /\
    mySlit (AnchorArray (10 + 1) (20 + 2) deg) (mkQ 2 deg) (mkQ 4 deg)
      (mkQ 30 deg) 3 deg marker_style = inr p' /\
    xy p' = translate (1, 2) (xy p).
Proof.
  apply (X7_anchor_shift_translates (AnchorArray 10 20 deg)
           (AnchorArray (10 + 1) (20 + 2) deg) (mkQ 2 deg) (mkQ 4 deg)
           (mkQ 30 deg) 3 deg marker_style 1 2).
  - lia.
  - reflexivity.
Defined.

(** X8: what the two command-line corrections do to the drawing: both
    polygons of a run are the polygons of the same run without corrections,
    moved by [dec_corr / 3600] degrees in longitude and [ra_corr / 3600]
    degrees in latitude, with shape and orientation unchanged. *)
Theorem X8_corrections_translate_both_patches
  (pargs : Args) (image_data : matrix) (hdr : Header) :
  exists s c s0 c0 out out0 ax ax0,
    main pargs image_data hdr = inr (0%Z, out, ax) /\
    patches ax = [s; c] /\
    main (no_corrections pargs) image_data hdr = inr (0%Z, out0, ax0) /\
    patches ax0 = [s0; c0] /\
    xy s = translate (dec_corr pargs / 3600, ra_corr pargs / 3600) (xy s0) /\
    xy c = translate (dec_corr pargs / 3600, ra_corr pargs / 3600) (xy c0).
Proof.
  destruct (main_patches pargs image_data hdr)
    as (s & c & Es & Ec & E & _).
  destruct (main_patches (no_corrections pargs) image_data hdr)
    as (s0 & c0 & Es0 & Ec0 & E0 & _).
  exists s, c, s0, c0. do 4 eexists.
  split; [exact E|]. split; [reflexivity|].
  split; [exact E0|]. split; [reflexivity|].
  assert (Ha : anchor_to_value (main_anchor pargs hdr) default_vertex_unit
               = (fst (anchor_to_value (main_anchor (no_corrections pargs) hdr)
                         default_vertex_unit) + dec_corr pargs / 3600,
                  snd (anchor_to_value (main_anchor (no_corrections pargs) hdr)
                         default_vertex_unit) + ra_corr pargs / 3600)).
  { unfold default_vertex_unit. rewrite !main_anchor_degrees.
    cbn [no_corrections ra_corr dec_corr fst snd]. apply f_equal2; field. }
  assert (H : (1 <= default_resolution)%Z) by (unfold default_resolution; lia).
  split.
  - exact (mySlit_translated _ _ _ _ _ _ _ _ _ _ _ s0 s H Ha Es0 Es).
  - exact (mySlit_translated _ _ _ _ _ _ _ _ _ _ _ c0 c H Ha Ec0 Ec).
Qed.

(** The left edge of the polygon, from the first vertex (bottom-left corner)
    to the first vertex of the last edge (top-left corner): the long axis of
    a slit, turned by [theta]. *)
Lemma mySlit_long_axis (anchor : Anchor) (width height theta : Quantity)
  (res : Z) (u : Unit) (kwargs : PatchStyle) (p : Polygon) :
  (1 <= res)%Z ->
  mySlit anchor width height theta res u kwargs = inr p ->
  vsub (row_pair (nth (3 * Z.to_nat res) (xy p) []))
       (row_pair (nth 0 (xy p) []))
  = (sin (to_value theta rad) * to_value height u,
     cos (to_value theta rad) * to_value height u).
Proof.
  intros H Ep.
  destruct (mySlit_rows anchor width height theta res u kwargs H)
    as (V & p' & _ & Ep' & _ & Hrow & Hb).
  rewrite Ep in Ep'. injection Ep' as <-.
  rewrite (Hrow 0%nat), (Hrow (3 * Z.to_nat res)%nat) by lia.
  pose proof (Hb 0%nat 0%nat ltac:(lia) ltac:(lia)) as B0.
  pose proof (Hb 3%nat 0%nat ltac:(lia) ltac:(lia)) as B3.
  rewrite Nat.add_0_r in B0, B3. rewrite Nat.mul_0_l in B0.
  rewrite B0, B3.
  unfold vsub, row_pair, rotated_about, affine_image, boundary_vertex.
  cbn [nth fst snd Z.of_nat].
  assert (1 <= IZR res) by (apply IZR_le; exact H).
  apply f_equal2; field; lra.
Qed.

Lemma arcmin_in_degrees (x : R) :
  to_value (mkQ x arcmin) default_vertex_unit = x / 60.
Proof.
  unfold to_value, convert, default_vertex_unit.
  cbn [unit value unit_eqb scale]. field. exact PI_neq0.
Qed.

Lemma quarter_turn_more (a : R) :
  to_value (mkQ (a + 90) deg) rad = to_value (mkQ a deg) rad + PI / 2.
Proof. unfold to_value, convert; cbn [unit value unit_eqb scale]; field. Qed.

(** X9: the marker is perpendicular to the slit: in every run of [main] the
    long axis of the marker polygon (bottom-left to top-left corner, 0.1
    arcmin long) is orthogonal to the long axis of the slit polygon (3 arcmin
    long). *)
Theorem X9_marker_perpendicular_to_slit
  (pargs : Args) (image_data : matrix) (hdr : Header) :
  exists s c out ax,
    main pargs image_data hdr = inr (0%Z, out, ax) /\
    patches ax = [s; c] /\
    let slit_axis :=
      vsub (row_pair (nth 300 (xy s) [])) (row_pair (nth 0 (xy s) [])) in
    let marker_axis :=
      vsub (row_pair (nth 300 (xy c) [])) (row_pair (nth 0 (xy c) [])) in
    dot2 slit_axis marker_axis = 0 /\
    dot2 slit_axis slit_axis = (3 / 60) * (3 / 60) /\
    dot2 marker_axis marker_axis = (0.1 / 60) * (0.1 / 60).
Proof.
  destruct (main_patches pargs image_data hdr)
    as (s & c & Es & Ec & E & _).
  exists s, c. do 2 eexists.
  split; [exact E|]. split; [reflexivity|].
  assert (H : (1 <= default_resolution)%Z) by (unfold default_resolution; lia).
  pose proof (mySlit_long_axis _ _ _ _ _ _ _ s H Es) as As.
  pose proof (mySlit_long_axis _ _ _ _ _ _ _ c H Ec) as Ac.
  change (3 * Z.to_nat default_resolution)%nat with 300%nat in As, Ac.
  cbv zeta. rewrite As, Ac, quarter_turn_more.
  rewrite sin_plus, cos_plus, sin_PI2, cos_PI2.
  pose proof (sin2_cos2 (to_value (mkQ (POSANG hdr) deg) rad)) as T.
  unfold Rsqr in T.
  set (sn := sin (to_value (mkQ (POSANG hdr) deg) rad)) in *.
  set (cs := cos (to_value (mkQ (POSANG hdr) deg) rad)) in *.
  rewrite !arcmin_in_degrees.
  replace (3.0 / 60) with (3 / 60) by lra.
  set (m := 0.1 / 60).
  unfold dot2. cbn [fst snd].
  split; [ring|]. split.
  - transitivity ((sn * sn + cs * cs) * (3 / 60 * (3 / 60)));
      [ring | rewrite T; ring].
  - transitivity ((sn * sn + cs * cs) * (m * m));
      [ring | rewrite T; ring].
Qed.

(** ** Units *)

Lemma unit_eqb_true (a b : Unit) : unit_eqb a b = true -> a = b.
Proof. destruct a, b; cbn; intros E; (reflexivity || discriminate E). Qed.

Lemma scale_neq0 (u : Unit) : scale u <> 0.
Proof. pose proof PI_RGT_0. destruct u; cbn; lra. Qed.

Lemma convert_ratio (a b : Unit) (x : R) :
  convert a b x = x * (scale a / scale b).
Proof.
  unfold convert. destruct (unit_eqb a b) eqn:E; [|reflexivity].
  apply unit_eqb_true in E. subst b. field. apply scale_neq0.
Qed.

(** X10: an anchor given as two quantities in different units (as [main]
    gives hours and degrees) has the centre that converting each quantity to
    the vertex unit on its own gives: bringing the pair to the unit of its
    first element on the way changes nothing. *)
Theorem X10_mixed_unit_anchor
  (q0 q1 : Quantity) (vertex_unit : Unit) :
  anchor_to_value (AnchorPair q0 q1) vertex_unit
  = (to_value q0 vertex_unit, to_value q1 vertex_unit).
Proof.
  unfold anchor_to_value, to_value. rewrite !convert_ratio.
  pose proof (scale_neq0 (unit q0)). pose proof (scale_neq0 (unit q1)).
  pose proof (scale_neq0 vertex_unit).
  apply f_equal2; field; auto.
Qed.

Lemma anchor_to_value_ratio (anchor : Anchor) (u1 u2 : Unit) :
  anchor_to_value anchor u2
  = (scale u1 / scale u2 * fst (anchor_to_value anchor u1),
     scale u1 / scale u2 * snd (anchor_to_value anchor u1)).
Proof.
  pose proof (scale_neq0 u1). pose proof (scale_neq0 u2).
  destruct anchor as [q0 q1|x y u0]; unfold anchor_to_value, to_value;
    rewrite !convert_ratio; cbn [fst snd].
  - pose proof (scale_neq0 (unit q0)). pose proof (scale_neq0 (unit q1)).
    apply f_equal2; field; auto.
  - pose proof (scale_neq0 u0). apply f_equal2; field; auto.
Qed.

Lemma to_value_ratio (q : Quantity) (u1 u2 : Unit) :
  to_value q u2 = scale u1 / scale u2 * to_value q u1.
Proof.
  pose proof (scale_neq0 u1). pose proof (scale_neq0 u2).
  unfold to_value. rewrite !convert_ratio. field; auto.
Qed.

(** X11: the vertex unit only sets the unit of the output: the polygon built
    in unit [u2] is the polygon built in unit [u1] with every coordinate
    multiplied by the size of [u1] in units of [u2]. *)
Theorem X11_vertex_unit_rescales
  (anchor : Anchor) (width height theta : Quantity) (resolution : Z)
  (u1 u2 : Unit) (kwargs : PatchStyle) :
  (1 <= resolution)%Z ->
  exists p1 p2,
    mySlit anchor width height theta resolution u1 kwargs = inr p1 /\
    mySlit anchor width height theta resolution u2 kwargs = inr p2 /\
    xy p2 = scale_rows (scale u1 / scale u2) (xy p1).
Proof.
  intros H. eexists; eexists.
  split; [apply mySlit_closed; exact H|].
  split; [apply mySlit_closed; exact H|].
  cbn [xy].
  rewrite (anchor_to_value_ratio anchor u1 u2).
  rewrite (to_value_ratio width u1 u2), (to_value_ratio height u1 u2).
  set (r := scale u1 / scale u2).
  destruct (anchor_to_value anchor u1) as [cx cy]. cbn [fst snd].
  unfold scale_rows. apply traced_rows_map; [exact H|].
  intros e k He Hk.
  unfold rotated_about, affine_image, boundary_vertex. cbv zeta.
  set (t := IZR (Z.of_nat k) / IZR resolution).
  destruct e as [|[|[|[|e]]]]; [| | | |lia]; cbn [nth fst snd];
    (apply f_equal2; [field|]; apply f_equal2; [field|reflexivity]).
Qed.

Lemma X11_vertex_unit_rescales_witness :
  exists p1 p2,
    mySlit (AnchorArray 10 20 deg) (mkQ 2 deg) (mkQ 4 deg) (mkQ 30 deg) 3 deg
      marker_style = inr p1 /\
    mySlit (AnchorArray 10 20 deg) (mkQ 2 deg) (mkQ 4 deg) (mkQ 30 deg) 3
      arcsec marker_style = inr p2 /\
    xy p2 = scale_rows (scale deg / scale arcsec) (xy p1).
Proof.
  apply (X11_vertex_unit_rescales (AnchorArray 10 20 deg) (mkQ 2 deg)
           (mkQ 4 deg) (mkQ 30 deg) 3 deg arcsec marker_style).
  lia.
Defined.

(** ** Spacing of the vertices along the path *)

Lemma boundary_vertex_corner (lon lat w h : R) (res : Z) (e : nat) :
  (1 <= res)%Z -> (e < 4)%nat ->
  boundary_vertex lon lat w h res ((e + 1) mod 4) 0
  = boundary_vertex lon lat w h res e (Z.to_nat res).
Proof.
  intros H He. unfold boundary_vertex. rewrite IZR_to_nat by lia.
  assert (1 <= IZR res) by (apply IZR_le; exact H).
  destruct e as [|[|[|[|e]]]]; [| | | |lia];
    cbn [Nat.add Nat.modulo Nat.divmod fst snd Z.of_nat];
    apply f_equal2; field; lra.
Qed.

(** The vertex after position [e * n + k], cyclically. *)
Lemma vertex_next (lon lat w h : R) (res : Z) (e k : nat) :
  (1 <= res)%Z -> (e < 4)%nat -> (k < Z.to_nat res)%nat ->
  vertex_of [trace_lon (lon - w * 0.5) w res; trace_lat (lat - h * 0.5) h res]
    ((e * Z.to_nat res + k + 1) mod (4 * Z.to_nat res))
  = boundary_vertex lon lat w h res e (k + 1).
Proof.
  intros H He Hk.
  destruct (Nat.eq_dec (k + 1) (Z.to_nat res)) as [Ek|Ek].
  - rewrite Ek, <- boundary_vertex_corner by assumption.
    replace (e * Z.to_nat res + k + 1)%nat
      with ((e + 1) * Z.to_nat res)%nat by lia.
    destruct (Nat.eq_dec e 3) as [->|He3].
    + change (3 + 1)%nat with 4%nat. rewrite Nat.Div0.mod_same.
      change (4 mod 4)%nat with 0%nat.
      apply (vertex_of_trace lon lat w h res 0 0); lia.
    + rewrite !Nat.mod_small by nia.
      rewrite <- (Nat.add_0_r ((e + 1) * Z.to_nat res)).
      apply vertex_of_trace; lia.
  - rewrite Nat.mod_small by nia.
    rewrite <- Nat.add_assoc. apply vertex_of_trace; lia.
Qed.

Lemma boundary_vertex_step (lon lat w h : R) (res : Z) (e k : nat) :
  (1 <= res)%Z -> (e < 4)%nat ->
  dist2 (boundary_vertex lon lat w h res e k)
        (boundary_vertex lon lat w h res e (k + 1))
  = if Nat.even e then (w / IZR res) * (w / IZR res)
    else (h / IZR res) * (h / IZR res).
Proof.
  intros H He. unfold boundary_vertex, dist2.
  rewrite Nat2Z.inj_add, plus_IZR. cbn [Z.of_nat Pos.of_succ_nat].
  assert (1 <= IZR res) by (apply IZR_le; exact H).
  destruct e as [|[|[|[|e]]]]; [| | | |lia]; cbn [Nat.even fst snd];
    field; lra.
Qed.

(** X12: the path is sampled evenly and closes on itself: every vertex of
    the polygon and the next one (the first one after the last) are
    [w / resolution] apart on the bottom and top edges and [h / resolution]
    apart on the right and left edges, for every angle. *)
Theorem X12_even_spacing_closed_path
  (anchor : Anchor) (width height theta : Quantity) (resolution : Z)
  (vertex_unit : Unit) (kwargs : PatchStyle) :
  (1 <= resolution)%Z ->
  exists p,
    mySlit anchor width height theta resolution vertex_unit kwargs = inr p /\
    forall e k, (e < 4)%nat -> (k < Z.to_nat resolution)%nat ->
      let i := (e * Z.to_nat resolution + k)%nat in
      let step :=
        (if Nat.even e then to_value width vertex_unit
         else to_value height vertex_unit) / IZR resolution in
      dist2 (row_pair (nth i (xy p) []))
            (row_pair (nth ((i + 1) mod length (xy p)) (xy p) []))
      = step * step.
Proof.
  intros H. eexists. split; [apply mySlit_closed; exact H|].
  cbn [xy]. intros e k He Hk. cbv zeta.
  rewrite rotated_rows_length, trace_lon_length.
  assert (Hm : ((e * Z.to_nat resolution + k + 1) mod (4 * Z.to_nat resolution)
                < 4 * Z.to_nat resolution)%nat)
    by (apply Nat.mod_upper_bound; lia).
  rewrite !rotated_rows_nth by (rewrite trace_lon_length; nia).
  rewrite rotated_about_dist2.
  destruct (anchor_to_value anchor vertex_unit) as [cx cy]. cbn [fst snd].
  pose proof (vertex_of_trace cx cy (to_value width vertex_unit)
                (to_value height vertex_unit) resolution e k H He Hk) as E.
  pose proof (vertex_next cx cy (to_value width vertex_unit)
                (to_value height vertex_unit) resolution e k H He Hk) as E'.
  unfold vertex_of in E, E'. cbn [nth] in E, E'.
  rewrite E, E', boundary_vertex_step by assumption.
  destruct (Nat.even e); reflexivity.
Qed.

Lemma X12_even_spacing_closed_path_witness :
  exists p,
    mySlit (AnchorArray 10 20 deg) (mkQ 2 deg) (mkQ 4 deg) (mkQ 30 deg) 3 deg
      marker_style = inr p /\
    forall e k, (e < 4)%nat -> (k < Z.to_nat 3)%nat ->
      let i := (e * Z.to_nat 3 + k)%nat in
      let step := (if Nat.even e then 2 else 4) / 3 in
      dist2 (row_pair (nth i (xy p) []))
            (row_pair (nth ((i + 1) mod length (xy p)) (xy p) []))
      = step * step.
Proof.
  apply (X12_even_spacing_closed_path (AnchorArray 10 20 deg) (mkQ 2 deg)
           (mkQ 4 deg) (mkQ 30 deg) 3 deg marker_style).
  lia.
Defined.

(** ** A quarter turn and the exceptions *)

(** X13: a quarter turn more is the same polygon as width and height
    exchanged: the polygon built with angle [a + 90] degrees has, on edge [e]
    at step [k], the vertex that the polygon built with width and height
    swapped and angle [a] has on the edge before ([e + 3] modulo 4) at step
    [k]. *)
Theorem X13_quarter_turn_swaps_width_and_height
  (anchor : Anchor) (width height : Quantity) (a : R) (resolution : Z)
  (vertex_unit : Unit) (kwargs : PatchStyle) :
  (1 <= resolution)%Z ->
  exists p q,
    mySlit anchor width height (mkQ (a + 90) deg) resolution vertex_unit kwargs
      = inr p /\
    mySlit anchor height width (mkQ a deg) resolution vertex_unit kwargs
      = inr q /\
    forall e k, (e < 4)%nat -> (k < Z.to_nat resolution)%nat ->
      nth (e * Z.to_nat resolution + k) (xy p) []
      = nth ((e + 3) mod 4 * Z.to_nat resolution + k) (xy q) [].
Proof.
  intros H.
  destruct (mySlit_rows anchor width height (mkQ (a + 90) deg) resolution
              vertex_unit kwargs H) as (V & p & _ & Ep & _ & Hrow & Hb).
  destruct (mySlit_rows anchor height width (mkQ a deg) resolution
              vertex_unit kwargs H) as (V' & q & _ & Eq & _ & Hrow' & Hb').
  exists p, q. split; [exact Ep|]. split; [exact Eq|].
  intros e k He Hk.
  assert (Hm : ((e + 3) mod 4 < 4)%nat) by (apply Nat.mod_upper_bound; lia).
  rewrite Hrow, Hrow' by nia.
  rewrite Hb, Hb' by assumption.
  rewrite quarter_turn_more.
  unfold rotated_about, affine_image, boundary_vertex. cbv zeta.
  rewrite sin_plus, cos_plus, sin_PI2, cos_PI2.
  set (t := IZR (Z.of_nat k) / IZR resolution).
  destruct e as [|[|[|[|e]]]]; [| | | |lia];
    match goal with
    | |- context [((?x + 3) mod 4)%nat] =>
        let v := eval compute in ((x + 3) mod 4)%nat in
        change ((x + 3) mod 4)%nat with v
    end;
    cbn [fst snd];
    (apply f_equal2; [field|]; apply f_equal2; [field|reflexivity]).
Qed.

Lemma X13_quarter_turn_swaps_width_and_height_witness :
  exists p q,
    mySlit (AnchorArray 10 20 deg) (mkQ 2 deg) (mkQ 4 deg) (mkQ (30 + 90) deg)
      3 deg marker_style = inr p /\
    mySlit (AnchorArray 10 20 deg) (mkQ 4 deg) (mkQ 2 deg) (mkQ 30 deg) 3 deg
      marker_style = inr q /\
    forall e k, (e < 4)%nat -> (k < Z.to_nat 3)%nat ->
      nth (e * Z.to_nat 3 + k) (xy p) []
      = nth ((e + 3) mod 4 * Z.to_nat 3 + k) (xy q) [].
Proof.
  apply (X13_quarter_turn_swaps_width_and_height (AnchorArray 10 20 deg)
           (mkQ 2 deg) (mkQ 4 deg) 30 3 deg marker_style).
  lia.
Defined.

(** X14: which exception a negative resolution raises: [resolution = -1]
    makes both progressions empty and the builder fails on indexing them
    ([IndexError]); below that [np.linspace] refuses the sample count
    ([ValueError]); neither depends on the other arguments. *)
Theorem X14_negative_resolution_exceptions
  (anchor : Anchor) (width height theta : Quantity) (resolution : Z)
  (vertex_unit : Unit) (kwargs : PatchStyle) :
  (resolution < 0)%Z ->
  (resolution = (-1)%Z ->
   mySlit anchor width height theta resolution vertex_unit kwargs
   = inl IndexError) /\
  ((resolution <= -2)%Z ->
   mySlit anchor width height theta resolution vertex_unit kwargs
   = inl ValueError).
Proof.
  intros H. rewrite mySlit_negative by exact H. split.
  - intros ->. reflexivity.
  - intros H2. destruct (Z.eqb_spec resolution (-1)); [lia|reflexivity].
Qed.

Lemma X14_negative_resolution_exceptions_witness :
  (-1 = -1 ->
   mySlit (AnchorArray 10 20 deg) (mkQ 2 deg) (mkQ 4 deg) (mkQ 30 deg) (-1)
     deg marker_style = inl IndexError)%Z /\
  (-1 <= -2 ->
   mySlit (AnchorArray 10 20 deg) (mkQ 2 deg) (mkQ 4 deg) (mkQ 30 deg) (-1)
     deg marker_style = inl ValueError)%Z.
Proof.
  apply (X14_negative_resolution_exceptions (AnchorArray 10 20 deg)
           (mkQ 2 deg) (mkQ 4 deg) (mkQ 30 deg) (-1) deg marker_style).
  lia.
Defined.
